(** * logcplus: a shallow embedding of [src/logcplus.h]

    The header-only logging library is embedded component by component, in
    the order of the header: the record queue, the time of day, the
    type-erased configuration map, file sizes, the directory watcher, the
    file watcher, the logger engine and the configuration loader.

    Conventions.
    - C++ exceptions are values of [exn]; a function that may throw
      returns a [result].
    - [std::cerr] is a list of report lines threaded through the code
      that writes to it.
    - The wall clock, the file system and the rotation callback are
      inputs of the functions that consult them.
    - [std::uintmax_t] and [unsigned long long] are 64-bit: arithmetic on
      them is written with its wrap-around [wrap64]. *)

From Stdlib Require Import ZArith Lia Ascii String List.
From stdpp Require Import base option list strings gmap fin_maps pretty.

Set Default Proof Using "Type".
Local Open Scope Z_scope.

(** ** Exceptions and results *)

Inductive exn : Type :=
  | invalid_argument   (* std::invalid_argument *)
  | out_of_range       (* std::out_of_range *)
  | bad_any_cast       (* std::bad_any_cast *)
  | filesystem_error.  (* std::filesystem::filesystem_error *)

Inductive result (A : Type) : Type :=
  | Ok (a : A)
  | Throw (e : exn).
Arguments Ok {A} a.
Arguments Throw {A} e.

Definition rbind {A B} (r : result A) (k : A → result B) : result B :=
  match r with
  | Ok a => k a
  | Throw e => Throw e
  end.

Notation "'TRY' x ':=' r 'IN' k" := (rbind r (fun x => k))
  (at level 10, x name, r at level 100, k at level 200, only parsing).

Definition uintmax_modulus : Z := 2 ^ 64.
Definition wrap64 (z : Z) : Z := z mod uintmax_modulus.

(** ** ConcurrentQueue

    [std::queue] under a mutex.  Every public operation runs under the
    lock, so an execution is a sequence of whole operations on the
    container; the container is the list of its items, head first. *)

Module ConcurrentQueue.
Section Queue.
Context {T : Type}.

Definition t := list T.

(** [front()] of an empty [std::queue] has no defined result: [None]. *)
Definition front (q : t) : option T :=
  match q with
  | [] => None
  | x :: _ => Some x
  end.

(** [take]: [return queueContainer_.front();], no emptiness test, the
    container is left as it is. *)
Definition take (q : t) : option T := front q.

(** [enqueue]: [queueContainer_.push(_queueItem)]. *)
Definition enqueue (x : T) (q : t) : t := q ++ [x].

(** [dequeue]: waits until the container is non-empty ([None]: the
    caller is still waiting), then [front()] and [pop()]. *)
Definition dequeue (q : t) : option (T * t) :=
  match q with
  | [] => None
  | x :: q' => Some (x, q')
  end.

Fixpoint clear_loop (fuel : nat) (q : t) : t :=
  match fuel, q with
  | S n, _ :: q' => clear_loop n q'
  | _, _ => q
  end.

(** [clear]: pops while the container is not empty. *)
Definition clear (q : t) : t := clear_loop (List.length q) q.

Definition length (q : t) : Z := Z.of_nat (List.length q).
Definition empty (q : t) : bool := match q with [] => true | _ => false end.

(** The operations that change the container, as observable events. *)
Inductive event : Type :=
  | Enq (x : T)    (* a call of enqueue x returned *)
  | Deq (x : T).   (* a call of dequeue returned x *)

Inductive step : t → event → t → Prop :=
  | step_enq q x : step q (Enq x) (enqueue x q)
  | step_deq q x q' : dequeue q = Some (x, q') → step q (Deq x) q'.

Inductive steps : t → list event → t → Prop :=
  | steps_nil q : steps q [] q
  | steps_cons q e q1 es q2 :
      step q e q1 → steps q1 es q2 → steps q (e :: es) q2.

Definition enqueued (es : list event) : list T :=
  flat_map (fun e => match e with Enq x => [x] | Deq _ => [] end) es.
Definition dequeued (es : list event) : list T :=
  flat_map (fun e => match e with Deq x => [x] | Enq _ => [] end) es.

(** Running a whole sequence of requests on one thread; a dequeue on an
    empty container would wait for ever and the run has no result. *)
Inductive request : Type := ReqEnqueue (x : T) | ReqDequeue.

Fixpoint run (rs : list request) (q : t) : option (list T * t) :=
  match rs with
  | [] => Some ([], q)
  | ReqEnqueue x :: rs' => run rs' (enqueue x q)
  | ReqDequeue :: rs' =>
      match dequeue q with
      | None => None
      | Some (x, q') =>
          match run rs' q' with
          | None => None
          | Some (out, q'') => Some (x :: out, q'')
          end
      end
  end.
End Queue.
Arguments t : clear implicits.
Arguments event : clear implicits.
Arguments request : clear implicits.
End ConcurrentQueue.

(** ** Characters and strings of the C++ standard library *)

Definition char_code (c : ascii) : Z := Z.of_N (N_of_ascii c).

(** [std::isdigit] in the "C" locale. *)
Definition isdigit (c : ascii) : bool :=
  (48 <=? char_code c) && (char_code c <=? 57).

(** [std::isspace] in the "C" locale: the blank, and the controls from
    the horizontal tab (9) to the carriage return (13). *)
Definition isspace (c : ascii) : bool :=
  (char_code c =? 32) || ((9 <=? char_code c) && (char_code c <=? 13)).

(** [::tolower] in the "C" locale. *)
Definition tolower (c : ascii) : ascii :=
  if (65 <=? char_code c) && (char_code c <=? 90)
  then ascii_of_N (N_of_ascii c + 32)
  else c.

Fixpoint transform_tolower (s : string) : string :=
  match s with
  | EmptyString => EmptyString
  | String c s' => String (tolower c) (transform_tolower s')
  end.

Fixpoint all_digits (s : string) : bool :=
  match s with
  | EmptyString => true
  | String c s' => isdigit c && all_digits s'
  end.

(** The longest prefix of digits and what follows it. *)
Fixpoint span_digits (s : string) : string * string :=
  match s with
  | EmptyString => (EmptyString, EmptyString)
  | String c s' =>
      if isdigit c
      then let '(d, r) := span_digits s' in (String c d, r)
      else (EmptyString, s)
  end.

Fixpoint decimal_value_from (acc : Z) (s : string) : Z :=
  match s with
  | EmptyString => acc
  | String c s' => decimal_value_from (10 * acc + (char_code c - 48)) s'
  end.

Definition decimal_value (s : string) : Z := decimal_value_from 0 s.

Definition INT_MAX : Z := 2147483647.
Definition ULLONG_MAX : Z := 18446744073709551615.

(** [std::stoi] and [std::stoull] on a text that starts with its digits
    (every call in the header passes digits only): no digit at all throws
    [std::invalid_argument], a value outside the type's range throws
    [std::out_of_range]. *)
Definition stoi (s : string) : result Z :=
  let '(d, _) := span_digits s in
  match d with
  | EmptyString => Throw invalid_argument
  | _ => if decimal_value d <=? INT_MAX then Ok (decimal_value d)
         else Throw out_of_range
  end.

Definition stoull (s : string) : result Z :=
  let '(d, _) := span_digits s in
  match d with
  | EmptyString => Throw invalid_argument
  | _ => if decimal_value d <=? ULLONG_MAX then Ok (decimal_value d)
         else Throw out_of_range
  end.

(** [std::to_string] of a non-negative [int]. *)
Definition to_string (n : Z) : string := pretty (Z.to_N n).

(** [std::to_string] of any [int]: a minus sign before the digits of a
    negative one. *)
Definition to_string_int (n : Z) : string := pretty n.

(** [haystack.find(needle) != std::string::npos]. *)
Fixpoint contains_substring (needle haystack : string) : bool :=
  String.prefix needle haystack ||
  match haystack with
  | EmptyString => false
  | String _ h' => contains_substring needle h'
  end.

(** ** Date::Time *)

Module Date.
Record Time : Type := mkTime { hour : Z; minute : Z; second : Z }.

(** The comparison operators of [Time], as they are written: [<] asks
    for all three components to be smaller, [>] returns [_lhs < _rhs],
    and [<=] and [>=] negate [>] and [<]. *)
Definition operator_eq (_lhs _rhs : Time) : bool :=
  (hour _lhs =? hour _rhs) && (minute _lhs =? minute _rhs)
  && (second _lhs =? second _rhs).

Definition operator_ne (_lhs _rhs : Time) : bool := negb (operator_eq _lhs _rhs).

Definition operator_lt (_lhs _rhs : Time) : bool :=
  (hour _lhs <? hour _rhs) && (minute _lhs <? minute _rhs)
  && (second _lhs <? second _rhs).

Definition operator_gt (_lhs _rhs : Time) : bool := operator_lt _lhs _rhs.

Definition operator_le (_lhs _rhs : Time) : bool := negb (operator_gt _lhs _rhs).

Definition operator_ge (_lhs _rhs : Time) : bool := negb (operator_lt _lhs _rhs).

(** [addTrailingZero]: a zero in front of a value from 0 to 9. *)
Definition addTrailingZero (_value : Z) : string :=
  if (0 <=? _value) && (_value <=? 9)
  then "0" +:+ to_string_int _value
  else to_string_int _value.

Definition toString (t : Time) : string :=
  addTrailingZero (hour t) +:+ ":" +:+ addTrailingZero (minute t) +:+ ":"
  +:+ addTrailingZero (second t).
End Date.

(** ** EMap: the type-erased key/value store

    A [std::any] is [None] when empty, otherwise the value it holds.
    Besides the three types [EMap::read] stores, an any can hold a
    [std::nullopt_t]: [LoggerConfigurator::contains] makes one. *)

Inductive any_content : Type :=
  | AnyString (s : string)
  | AnyInt (n : Z)
  | AnyBool (b : bool)
  | AnyNullopt.

Definition any := option any_content.

Definition has_value (a : any) : bool :=
  match a with Some _ => true | None => false end.

Definition any_cast_string (a : any) : result string :=
  match a with Some (AnyString s) => Ok s | _ => Throw bad_any_cast end.

Definition any_cast_bool (a : any) : result bool :=
  match a with Some (AnyBool b) => Ok b | _ => Throw bad_any_cast end.

Module EMap.
Abbreviation t := (gmap string any_content).

(** [add]: [set] when the key is there, [insert] when it is not. *)
Definition add (key : string) (value : any_content) (m : t) : t :=
  <[key := value]> m.

Definition containsKey (key : string) (m : t) : bool :=
  match m !! key with Some _ => true | None => false end.

(** [get]: [values_.at(_key)]; when [at] throws, the catch reports and
    returns an empty any. *)
Definition get (key : string) (m : t) : any * list string :=
  match m !! key with
  | Some v => (Some v, [])
  | None => (None, ["EMap: Cannot get map value for " +:+ key +:+ " key"])
  end.

Definition isNumber (s : string) : bool :=
  match s with
  | EmptyString => false
  | _ => all_digits s
  end.

Definition isBool (s : string) : bool :=
  let l := transform_tolower s in
  String.eqb l "true" || String.eqb l "false".

(** [toBool]: [is >> std::boolalpha >> b] on the lower-cased text; the
    extraction stops after the last letter of the name without touching
    the end of the stream, so the stream stays good on the two names
    and fails on anything else. *)
Definition toBool (s : string) : result bool :=
  let l := transform_tolower s in
  if String.eqb l "true" then Ok true
  else if String.eqb l "false" then Ok false
  else Throw invalid_argument.

(** [read]: the file is the sequence of its [key value] token pairs.
    The [catch] of [read] is for stream failures only: an exception of
    [std::stoi] or [toBool] leaves [read]. *)
Fixpoint read_loop (tokens : list (string * string)) (m : t) : result t :=
  match tokens with
  | [] => Ok m
  | (key, value) :: rest =>
      if isNumber value then
        TRY n := stoi value IN read_loop rest (add key (AnyInt n) m)
      else if isBool value then
        TRY b := toBool value IN read_loop rest (add key (AnyBool b) m)
      else read_loop rest (add key (AnyString value) m)
  end.

Definition read (tokens : list (string * string)) : result (bool * t) :=
  TRY m := read_loop tokens ∅ IN Ok (true, m).
End EMap.

(** ** Timer

    The time points and the flag of a timer; the thread that runs the
    callback of [startInterval] is outside the model.  Time points are
    ticks of the timer's clock. *)

Module Timer.
(** [TimeToMilliseconds]. *)
Definition MILLISECOND : Z := 1.
Definition SECOND : Z := 1000.
Definition MINUTE : Z := 60000.
Definition HOUR : Z := 3600000.
Definition DAY : Z := 86400000.
Definition WEEK : Z := 604800000.
Definition MONTH : Z := 2629746000.
Definition YEAR : Z := 31556952000.

Record t : Type := mk {
  startPoint_ : Z;
  stopPoint_ : Z;
  execute_ : bool
}.

Definition isRunning (tm : t) : bool := execute_ tm.

(** [start]: takes the start point unless an interval is running. *)
Definition start (now : Z) (tm : t) : t :=
  if execute_ tm then tm else mk now (stopPoint_ tm) (execute_ tm).

(** [stop]: takes the stop point and clears the flag. *)
Definition stop (now : Z) (tm : t) : t := mk (startPoint_ tm) now false.

(** [elapsedTime] in ticks: the count of [startPoint_ - stopPoint_]. *)
Definition elapsedTime (tm : t) : Z := startPoint_ tm - stopPoint_ tm.
End Timer.

(** ** FileSize *)

Module FileSize.
Inductive SizeUnit : Type := B | KB | KiB | MB | MiB | GB | GiB.

(** The enumerators' values. *)
Definition unit_value (u : SizeUnit) : Z :=
  match u with
  | B => 1
  | KB => 1000
  | KiB => 1024
  | MB => 1000000
  | MiB => 1048576
  | GB => 1000000000
  | GiB => 1073741824
  end.

Record t : Type := mk { size : Z; unit : SizeUnit }.

(** [FileSize()]. *)
Definition default : t := mk 1 B.

(** [bsize]: [size * static_cast<std::uintmax_t>(unit)]. *)
Definition bsize (f : t) : Z := wrap64 (size f * unit_value (unit f)).

Definition unit_of_string (u : string) : option SizeUnit :=
  if String.eqb u "B" then Some B
  else if String.eqb u "KB" then Some KB
  else if String.eqb u "KiB" then Some KiB
  else if String.eqb u "MB" then Some MB
  else if String.eqb u "MiB" then Some MiB
  else if String.eqb u "GB" then Some GB
  else if String.eqb u "GiB" then Some GiB
  else None.

Definition unit_name (u : SizeUnit) : string :=
  match u with
  | B => "B" | KB => "KB" | KiB => "KiB" | MB => "MB"
  | MiB => "MiB" | GB => "GB" | GiB => "GiB"
  end.

Definition toString (f : t) : string := to_string (size f) +:+ unit_name (unit f).

(** The comparison operators of [FileSize], as they are written: [==]
    compares the two fields, [<] the sizes in bytes, [>] returns
    [_lhs < _rhs], and [<=] and [>=] negate [>] and [<]. *)
Definition operator_eq (_lhs _rhs : t) : bool :=
  (size _lhs =? size _rhs) && (unit_value (unit _lhs) =? unit_value (unit _rhs)).

Definition operator_ne (_lhs _rhs : t) : bool := negb (operator_eq _lhs _rhs).

Definition operator_lt (_lhs _rhs : t) : bool := bsize _lhs <? bsize _rhs.

Definition operator_gt (_lhs _rhs : t) : bool := operator_lt _lhs _rhs.

Definition operator_le (_lhs _rhs : t) : bool := negb (operator_gt _lhs _rhs).

Definition operator_ge (_lhs _rhs : t) : bool := negb (operator_lt _lhs _rhs).

(** [parseFileSize].  [it] is the length of the digit prefix; the
    result starts as [FileSize()] and is returned as it is when the
    text has no digit prefix or nothing after it.  The second component
    is what the function writes to [std::cerr]. *)
Definition parseFileSize (_fileSize : string) : option t * list string :=
  let '(digits, rest) := span_digits _fileSize in
  let it := String.length digits in
  if ((0 <? it) && (it <? String.length _fileSize))%nat then
    match stoi digits with
    | Throw _ => (None, ["logcplus: Cannot parse file size, reason: stoi"])
    | Ok size =>
        if size <=? 0 then (None, [])
        else
          match unit_of_string rest with
          | Some u => (Some (mk size u), [])
          | None => (None, [])
          end
    end
  else (Some default, []).
End FileSize.


(** ** std::regex, the fragment the header uses for file names

    A pattern of this fragment is a sequence of atoms, each a character
    class ([\d], [.], a bracket set of plain characters, or a plain
    character) with an optional exact repetition [{n}].  [regex_parse]
    reads the pattern text; a pattern outside the fragment has no model
    ([None]). *)

Module Regex.
Inductive char_class : Type :=
  | CDigit                    (* \d *)
  | CAny                      (* .  : any character but a line terminator *)
  | CSet (cs : list ascii)    (* [...] of plain characters *)
  | CLit (c : ascii).         (* a plain character *)

Record piece : Type := mkPiece { cls : char_class; reps : nat }.

Definition is_line_terminator (c : ascii) : bool :=
  (char_code c =? 10) || (char_code c =? 13).

Definition class_matches (k : char_class) (c : ascii) : bool :=
  match k with
  | CDigit => isdigit c
  | CAny => negb (is_line_terminator c)
  | CSet cs => existsb (Ascii.eqb c) cs
  | CLit c' => Ascii.eqb c c'
  end.

(** Characters with a meaning of their own in ECMAScript patterns. *)
Definition is_special (c : ascii) : bool :=
  existsb (Ascii.eqb c)
    ["*"; "+"; "?"; "("; ")"; "|"; "^"; "$"; "{"; "}"; "["; "]"; "\"; "."]%char.

(** The body of a bracket set up to its closing bracket: plain characters
    only, the hyphen standing for itself. *)
Fixpoint parse_set (s : string) : option (list ascii * string) :=
  match s with
  | EmptyString => None
  | String c s' =>
      if Ascii.eqb c "]" then Some ([], s')
      else if Ascii.eqb c "\" || Ascii.eqb c "^" || Ascii.eqb c "[" then None
      else
        match parse_set s' with
        | Some (cs, r) => Some (c :: cs, r)
        | None => None
        end
  end.

(** An exact repetition [{n}] right after an atom, if there is one. *)
Definition parse_reps (s : string) : option (nat * string) :=
  match s with
  | String "{" s' =>
      let '(d, r) := span_digits s' in
      match d, r with
      | String _ _, String "}" r' => Some (Z.to_nat (decimal_value d), r')
      | _, _ => None
      end
  | _ => Some (1%nat, s)
  end.

Definition parse_atom (s : string) : option (char_class * string) :=
  match s with
  | EmptyString => None
  | String "\" (String "d" r) => Some (CDigit, r)
  | String "\" _ => None
  | String "[" r =>
      match parse_set r with
      | Some (c :: cs, r') =>
          (* a hyphen between two characters would be a range *)
          if existsb (Ascii.eqb "-") (removelast cs) then None
          else Some (CSet (c :: cs), r')
      | _ => None
      end
  | String "." r => Some (CAny, r)
  | String c r => if is_special c then None else Some (CLit c, r)
  end.

Fixpoint parse_pieces (fuel : nat) (s : string) : option (list piece) :=
  match s with
  | EmptyString => Some []
  | _ =>
      match fuel with
      | O => None
      | S fuel' =>
          match parse_atom s with
          | None => None
          | Some (k, r) =>
              match parse_reps r with
              | None => None
              | Some (n, r') =>
                  match parse_pieces fuel' r' with
                  | Some ps => Some (mkPiece k n :: ps)
                  | None => None
                  end
              end
          end
      end
  end.

Definition regex_parse (pattern : string) : option (list piece) :=
  parse_pieces (String.length pattern) pattern.

(** [n] characters of the class at the front of [s]; what is left. *)
Fixpoint match_class (k : char_class) (n : nat) (s : string) : option string :=
  match n with
  | O => Some s
  | S n' =>
      match s with
      | String c s' => if class_matches k c then match_class k n' s' else None
      | EmptyString => None
      end
  end.

Fixpoint match_pieces (ps : list piece) (s : string) : bool :=
  match ps with
  | [] => match s with EmptyString => true | _ => false end
  | p :: ps' =>
      match match_class (cls p) (reps p) s with
      | Some r => match_pieces ps' r
      | None => false
      end
  end.

(** [std::regex_match(text, std::regex(pattern))]: the whole text. *)
Definition regex_match (text pattern : string) : option bool :=
  match regex_parse pattern with
  | Some ps => Some (match_pieces ps text)
  | None => None
  end.
End Regex.

(** The macro [LOG_FILE_FORMAT]; the C literal doubles each backslash. *)
Definition LOG_FILE_FORMAT : string := "\d{4}[-]\d{2}[-]\d{2}.log.\d".

(** ** The directory tree the watchers work on

    One entry per path that [recursive_directory_iterator] yields, in the
    order it yields them.  [unlink_denied] says that the operating system
    refuses to delete the entry, which makes [std::filesystem::remove]
    throw. *)

Module Fs.
Record entry : Type := mkEntry {
  path : string;
  regular : bool;            (* is_regular_file *)
  last_write_time : Z;       (* in ticks of the file clock *)
  unlink_denied : bool
}.

Abbreviation tree := (list entry).

Fixpoint has_separator (p : string) : bool :=
  match p with
  | EmptyString => false
  | String c p' => Ascii.eqb c "/" || has_separator p'
  end.

(** [path::filename()]: what follows the last separator. *)
Fixpoint filename (p : string) : string :=
  match p with
  | EmptyString => EmptyString
  | String c p' =>
      if has_separator p' then filename p'
      else if Ascii.eqb c "/" then p' else p
  end.

Definition at_path (p : string) (e : entry) : bool := String.eqb (path e) p.

(** [std::filesystem::remove(p)]: nothing to do when the path is absent,
    an exception when the system refuses, otherwise the entry is gone. *)
Definition remove (p : string) (fs : tree) : result (bool * tree) :=
  match List.find (at_path p) fs with
  | None => Ok (false, fs)
  | Some e =>
      if unlink_denied e then Throw filesystem_error
      else Ok (true, List.filter (fun e' => negb (at_path p e')) fs)
  end.
End Fs.

(** ** DirectoryWatcher *)

Module DirectoryWatcher.
Record t : Type := mk {
  filePattern_ : string;
  fileExpiration_ : Z;       (* unsigned long long, milliseconds *)
  logDirectory_ : string
}.

(** The file clock counts nanoseconds. *)
Definition ticks_per_millisecond : Z := 1000000.

(** [std::chrono::milliseconds(fileExpiration_)]: the representation is a
    signed 64-bit count. *)
Definition milliseconds (z : Z) : Z := (z + 2 ^ 63) mod 2 ^ 64 - 2 ^ 63.

(** [isFileOlderThan]: [duration_cast<milliseconds>(now - last_write_time)
    > _limit]; the cast truncates towards zero. *)
Definition isFileOlderThan (now : Z) (e : Fs.entry) (_limit : Z) : bool :=
  _limit <? Z.quot (now - Fs.last_write_time e) ticks_per_millisecond.

(** [filesOlderThan]: the loop over the directory tree; [None] only when
    the pattern is outside the modelled fragment of [std::regex]. *)
Fixpoint filesOlderThan (now : Z) (_directory : Fs.tree) (_limit : Z)
    (_fileNameRegex : string) : option (list string) :=
  match _directory with
  | [] => Some []
  | file :: rest =>
      let keep_going (selected : bool) :=
        match filesOlderThan now rest _limit _fileNameRegex with
        | Some result => Some (if selected then Fs.path file :: result else result)
        | None => None
        end in
      let by_age := Fs.regular file && isFileOlderThan now file _limit in
      match _fileNameRegex with
      | EmptyString => keep_going by_age
      | _ =>
          match Regex.regex_match (Fs.filename (Fs.path file)) _fileNameRegex with
          | None => None
          | Some false => keep_going false
          | Some true => keep_going by_age
          end
      end
  end.

(** The loop of [removeOldLogFiles].  It stands inside the [try], so the
    first exception leaves it: the result is the tree at that point and
    the exception, if any, that ended the loop. *)
Fixpoint remove_loop (filesToRemove : list string) (fs : Fs.tree)
    : Fs.tree * option exn :=
  match filesToRemove with
  | [] => (fs, None)
  | file :: rest =>
      match Fs.remove file fs with
      | Ok r => remove_loop rest (snd r)
      | Throw e => (fs, Some e)
      end
  end.

Definition deletion_report : string :=
  "logcplus: Unexpected error while deleting file".

(** [removeOldLogFiles]: the tree after the sweep and what the [catch]
    wrote to [std::cerr]. *)
Definition removeOldLogFiles (w : t) (now : Z) (fs : Fs.tree)
    : option (Fs.tree * list string) :=
  match filesOlderThan now fs (milliseconds (fileExpiration_ w)) (filePattern_ w) with
  | None => None
  | Some filesToRemove =>
      let '(fs', thrown) := remove_loop filesToRemove fs in
      Some (fs', match thrown with Some _ => [deletion_report] | None => [] end)
  end.
End DirectoryWatcher.

(** ** FileWatcher *)

Module FileWatcher.
Record FileWatcherSettings : Type := mkSettings {
  filePath : string;
  maxFileSize : FileSize.t;
  checkPoint : option Date.Time
}.

Section Tick.
(** The state of everything outside the watcher: the files and whatever
    the callback works on. *)
Context {World : Type}.
(** [callback_], a [std::function<void()>]. *)
Variable callback_ : World → World.
(** [std::filesystem::file_size(path, errorCode)]: the size in bytes, or
    [static_cast<uintmax_t>(-1)] when the size cannot be read. *)
Variable file_size : string → World → Z.

(** The test of the checkpoint: hour and minute, the seconds are left
    out of the comparison. *)
Definition checkpoint_reached (s : FileWatcherSettings) (currTime : Date.Time) : bool :=
  match checkPoint s with
  | Some cp =>
      (Date.hour cp =? Date.hour currTime) && (Date.minute cp =? Date.minute currTime)
  | None => false
  end.

(** [isTimeToCallback], one tick of the timer.  The result is the world
    after the tick and the number of times [callback_] was called.  The
    early return on [errorCode] is never taken: the code is compared
    with a fresh [std::error_code] right after its construction.  The
    file size is read after the checkpoint test and its call. *)
Definition isTimeToCallback (s : FileWatcherSettings) (currTime : Date.Time)
    (w : World) : World * nat :=
  let '(w1, calls) :=
    if checkpoint_reached s currTime then (callback_ w, 1%nat) else (w, 0%nat) in
  let currFileSize := file_size (filePath s) w1 in
  if FileSize.bsize (maxFileSize s) <? currFileSize
  then (callback_ w1, S calls)
  else (w1, calls).
End Tick.
End FileWatcher.

(** ** The log directory as the logger sees it

    [Logger] lists the directory, renames a file in it and opens a file
    in it: the directory is the finite map from the names of its files to
    their contents. *)

Module Dir.
Abbreviation listing := (gmap string string).

(** [std::filesystem::rename(old, new)] inside the directory: the source
    must exist; an existing target is replaced. *)
Definition rename (old new : string) (d : listing) : result listing :=
  match d !! old with
  | None => Throw filesystem_error
  | Some content => Ok (<[new := content]> (delete old d))
  end.

(** [std::filesystem::file_size(path, errorCode)] for a path into the
    directory: the length of the file, or [static_cast<uintmax_t>(-1)]
    when there is no such file. *)
Definition file_size (path : string) (d : option listing) : Z :=
  match d with
  | Some l =>
      match l !! Fs.filename path with
      | Some content => Z.of_nat (String.length content)
      | None => ULLONG_MAX
      end
  | None => ULLONG_MAX
  end.

(** [std::filesystem::create_directories(path)] where there is no such
    directory: the empty path names none and the call throws; any other
    path is created, empty. *)
Definition create_directories (path : string) : result listing :=
  match path with
  | EmptyString => Throw filesystem_error
  | _ => Ok ∅
  end.

(** [if (!isFileExist(path)) create_directories(path)]: the directory
    the rest of the function works in.  [d] is the directory [path]
    names, [None] while there is none; the empty path names none. *)
Definition ensure_directory (path : string) (d : option listing) : result listing :=
  match d with
  | Some l => Ok l
  | None => create_directories path
  end.

(** [ofstream::open(name, ios::out | ios::app)]: an absent file is
    created empty, an existing one is kept. *)
Definition open_append (name : string) (d : listing) : listing :=
  match d !! name with
  | None => <[name := EmptyString]> d
  | Some _ => d
  end.
End Dir.

(** ** Logger *)

Module Logger.
Inductive LogMode : Type := Console | File.
Inductive LogLevel : Type := Debug | Info | Warn | Error | Fatal.

(** The enumerators' values, which [<=] on [LogLevel] compares. *)
Definition level_value (l : LogLevel) : Z :=
  match l with
  | Debug => 0 | Info => 1 | Warn => 2 | Error => 3 | Fatal => 4
  end.

Definition level_le (a b : LogLevel) : bool := level_value a <=? level_value b.

Definition mode_eqb (a b : LogMode) : bool :=
  match a, b with
  | Console, Console | File, File => true
  | _, _ => false
  end.

Record t : Type := mk {
  logMode_ : LogMode;
  logLevel_ : LogLevel;
  fileHandler_open : bool;       (* fileHandler_.first.is_open() *)
  fileHandler_name : string;     (* fileHandler_.second *)
  messageQueue_ : ConcurrentQueue.t string;
  work_ : bool;
  wait_ : bool
}.

(** [Logger()]. *)
Definition new : t := mk Console Debug false EmptyString [] false false.

Definition set_queue (q : ConcurrentQueue.t string) (lg : t) : t :=
  mk (logMode_ lg) (logLevel_ lg) (fileHandler_open lg) (fileHandler_name lg)
     q (work_ lg) (wait_ lg).

Definition set_handler (open : bool) (name : string) (lg : t) : t :=
  mk (logMode_ lg) (logLevel_ lg) open name (messageQueue_ lg) (work_ lg) (wait_ lg).

Definition set_work (b : bool) (lg : t) : t :=
  mk (logMode_ lg) (logLevel_ lg) (fileHandler_open lg) (fileHandler_name lg)
     (messageQueue_ lg) b (wait_ lg).

Definition set_wait (b : bool) (lg : t) : t :=
  mk (logMode_ lg) (logLevel_ lg) (fileHandler_open lg) (fileHandler_name lg)
     (messageQueue_ lg) (work_ lg) b.

Definition logTypeAsString (l : LogLevel) : string :=
  match l with
  | Info => "INFO" | Warn => "WARN" | Debug => "DEBUG"
  | Error => "ERROR" | Fatal => "FATAL"
  end.

(** [concatenateLogArguments]: a space before each argument. *)
Fixpoint concatenateLogArguments (_args : list string) : string :=
  match _args with
  | [] => EmptyString
  | a :: rest => " " +:+ a +:+ concatenateLogArguments rest
  end.

(** The line [log] builds; [timestamp] is [currentTime("%Y-%m-%d %X")]. *)
Definition format_line (timestamp : string) (_logLevel : LogLevel)
    (_args : list string) : string :=
  ("[" +:+ logTypeAsString _logLevel +:+ "]" +:+ " " +:+ timestamp +:+ " -")
  +:+ concatenateLogArguments _args.

(** [log]: formats and enqueues; it does not look at [logLevel_]. *)
Definition log (timestamp : string) (_logLevel : LogLevel) (_args : list string)
    (lg : t) : t :=
  set_queue (ConcurrentQueue.enqueue (format_line timestamp _logLevel _args)
               (messageQueue_ lg)) lg.

Definition debug (timestamp : string) (_args : list string) (lg : t) : t :=
  if level_le (logLevel_ lg) Debug then log timestamp Debug _args lg else lg.

Definition info (timestamp : string) (_args : list string) (lg : t) : t :=
  if level_le (logLevel_ lg) Info then log timestamp Info _args lg else lg.

Definition warn (timestamp : string) (_args : list string) (lg : t) : t :=
  if level_le (logLevel_ lg) Warn then log timestamp Warn _args lg else lg.

Definition error (timestamp : string) (_args : list string) (lg : t) : t :=
  if level_le (logLevel_ lg) Error then log timestamp Error _args lg else lg.

Definition fatal (timestamp : string) (_args : list string) (lg : t) : t :=
  if level_le (logLevel_ lg) Fatal then log timestamp Fatal _args lg else lg.

(** The public ways to submit a message. *)
Inductive entry_point : Type :=
  | ViaDebug | ViaInfo | ViaWarn | ViaError | ViaFatal
  | ViaLog (_logLevel : LogLevel).

Definition level_of (e : entry_point) : LogLevel :=
  match e with
  | ViaDebug => Debug | ViaInfo => Info | ViaWarn => Warn
  | ViaError => Error | ViaFatal => Fatal
  | ViaLog l => l
  end.

Definition submit (e : entry_point) (timestamp : string) (_args : list string)
    (lg : t) : t :=
  match e with
  | ViaDebug => debug timestamp _args lg
  | ViaInfo => info timestamp _args lg
  | ViaWarn => warn timestamp _args lg
  | ViaError => error timestamp _args lg
  | ViaFatal => fatal timestamp _args lg
  | ViaLog l => log timestamp l _args lg
  end.

(** [addOptionalFileSeparator]; [exists_] is [isFileExist(_file)]. *)
Definition addOptionalFileSeparator (exists_ : bool) (_file : string) : option string :=
  if negb exists_ then None
  else
    match String.length _file with
    | O => None
    | S n =>
        match String.get n _file with
        | Some c => if Ascii.eqb c "/" then None else Some (_file +:+ "/")
        | None => None
        end
    end.

(** [anyFileExists]: the number of names in the directory that contain
    [_fileSought]. *)
Definition anyFileExists (_directory : Dir.listing) (_fileSought : string) : Z :=
  Z.of_nat (size (filter (fun kv => contains_substring _fileSought kv.1 = true) _directory)).

(** [processQueue]: starts the drain thread unless it runs. *)
Definition processQueue (lg : t) : t :=
  if work_ lg then lg else set_work true lg.

(** [initialize(_logDirectory, _filename)].  The directory is [None]
    while it does not exist; the exception of
    [std::filesystem::create_directories] is not caught. *)
Definition initialize (_logDirectory _filename : string)
    (lg : t) (d : option Dir.listing) : result (t * option Dir.listing) :=
  match logMode_ lg with
  | Console => Ok (lg, d)
  | File =>
      let lg := set_wait true lg in
      TRY dir := Dir.ensure_directory _logDirectory d IN
      let '(lg, dir) :=
        if fileHandler_open lg then (lg, dir)
        else
          let _logDirectory :=
            match addOptionalFileSeparator true _logDirectory with
            | Some p => p
            | None => _logDirectory
            end in
          let fullPath := _logDirectory +:+ _filename in
          let dir := Dir.open_append _filename dir in
          let lg := set_handler true fullPath lg in
          (processQueue lg, dir) in
      Ok (set_wait false lg, Some dir)
  end.

(** [closeHandlers]. *)
Definition closeHandlers (lg : t) : t :=
  if fileHandler_open lg
  then set_wait false (set_handler false (fileHandler_name lg) (set_wait true lg))
  else lg.

(** [reopen(_logDirectory)]; [today] is [currentTime("%Y-%m-%d")].  The
    exceptions of [std::filesystem::create_directories] and of
    [std::filesystem::rename] are not caught. *)
Definition reopen (today : string) (_logDirectory : string)
    (lg : t) (d : option Dir.listing) : result (t * option Dir.listing) :=
  match logMode_ lg with
  | Console => Ok (lg, d)
  | File =>
      TRY dir := Dir.ensure_directory _logDirectory d IN
      let filename := today +:+ ".log" in
      let count := anyFileExists dir filename in
      let lg := closeHandlers lg in
      TRY r :=
        (if count =? 0 then Ok (_logDirectory, dir)
         else
           let _logDirectory :=
             match addOptionalFileSeparator true _logDirectory with
             | Some p => p
             | None => _logDirectory
             end in
           let filenameSufix := "." +:+ to_string count in
           TRY dir' := Dir.rename filename (filename +:+ filenameSufix) dir
           IN Ok (_logDirectory, dir'))
      IN initialize (fst r) (today +:+ ".log") lg (Some (snd r))
  end.

(** One turn of the loop of the drain thread in [processQueue], taken
    while [work_] is set: a line leaves the queue for the sink when the
    queue is not empty and [wait_] is clear; otherwise the thread sleeps.
    The sink is the list of the lines written to [std::cout]. *)
Definition drain_turn (st : t * list string) : t * list string :=
  let '(lg, sink) := st in
  if negb (ConcurrentQueue.empty (messageQueue_ lg)) && negb (wait_ lg) then
    match ConcurrentQueue.dequeue (messageQueue_ lg) with
    | Some (line, q) => (set_queue q lg, sink ++ [line])
    | None => (lg, sink)
    end
  else (lg, sink).

Fixpoint drain (turns : nat) (st : t * list string) : t * list string :=
  match turns with
  | O => st
  | S n => drain n (drain_turn st)
  end.

(** [stop]: closes the handler, then clears [work_] and joins the drain
    thread. *)
Definition stop (lg : t) : t := set_work false (closeHandlers lg).

(** A sequence of calls of the entry points, each with the time stamp
    the clock gives it and its arguments. *)
Fixpoint submit_all (calls : list (entry_point * string * list string)) (lg : t) : t :=
  match calls with
  | [] => lg
  | (e, timestamp, _args) :: rest => submit_all rest (submit e timestamp _args lg)
  end.
End Logger.

(** ** LoggerConfigurator *)

Module LoggerConfigurator.
Record LoggerConfiguration : Type := mkConfiguration {
  logDirectoryPath : string;
  maxLogFileSize : FileSize.t;
  removeLogsOlderThan : Z;
  logLevel : Logger.LogLevel;
  logMode : Logger.LogMode;
  checkPoint : option Date.Time;
  enableFileWatcher : bool;
  enableAutoRemove : bool
}.

(** The default member initialisers; [current_path] is
    [std::filesystem::current_path()]. *)
Definition default_configuration (current_path : string) : LoggerConfiguration :=
  mkConfiguration current_path (FileSize.mk 50 FileSize.MB) 0
    Logger.Debug Logger.Console None false false.

(** *** The body of [load]: a configuration being filled in, the lines
    written to [std::cerr], and an exception that may end it.  What was
    assigned and written before an exception stays. *)

Record load_state : Type := mkState {
  config : LoggerConfiguration;
  cerr : list string
}.

Definition M (A : Type) : Type := load_state → result A * load_state.

Definition ret {A} (a : A) : M A := fun st => (Ok a, st).

Definition bind {A B} (c : M A) (k : A → M B) : M B :=
  fun st =>
    match c st with
    | (Ok a, st') => k a st'
    | (Throw e, st') => (Throw e, st')
    end.

Definition lift {A} (r : result A) : M A := fun st => (r, st).

Definition report (line : string) : M unit :=
  fun st => (Ok tt, mkState (config st) (cerr st ++ [line])).

Definition assign (f : LoggerConfiguration → LoggerConfiguration) : M unit :=
  fun st => (Ok tt, mkState (f (config st)) (cerr st)).

Notation "'DO' x ':=' c 'THEN' k" := (bind c (fun x => k))
  (at level 10, x name, c at level 100, k at level 200, only parsing).
(** Statements one after the other. *)
Definition in_order (blocks : list (M unit)) : M unit :=
  fold_right (fun c k => bind c (fun _ => k)) (ret tt) blocks.

Definition set_logDirectoryPath (v : string) (c : LoggerConfiguration) :=
  mkConfiguration v (maxLogFileSize c) (removeLogsOlderThan c) (logLevel c)
    (logMode c) (checkPoint c) (enableFileWatcher c) (enableAutoRemove c).
Definition set_maxLogFileSize (v : FileSize.t) (c : LoggerConfiguration) :=
  mkConfiguration (logDirectoryPath c) v (removeLogsOlderThan c) (logLevel c)
    (logMode c) (checkPoint c) (enableFileWatcher c) (enableAutoRemove c).
Definition set_removeLogsOlderThan (v : Z) (c : LoggerConfiguration) :=
  mkConfiguration (logDirectoryPath c) (maxLogFileSize c) v (logLevel c)
    (logMode c) (checkPoint c) (enableFileWatcher c) (enableAutoRemove c).
Definition set_logLevel (v : Logger.LogLevel) (c : LoggerConfiguration) :=
  mkConfiguration (logDirectoryPath c) (maxLogFileSize c) (removeLogsOlderThan c) v
    (logMode c) (checkPoint c) (enableFileWatcher c) (enableAutoRemove c).
Definition set_logMode (v : Logger.LogMode) (c : LoggerConfiguration) :=
  mkConfiguration (logDirectoryPath c) (maxLogFileSize c) (removeLogsOlderThan c)
    (logLevel c) v (checkPoint c) (enableFileWatcher c) (enableAutoRemove c).
Definition set_checkPoint (v : option Date.Time) (c : LoggerConfiguration) :=
  mkConfiguration (logDirectoryPath c) (maxLogFileSize c) (removeLogsOlderThan c)
    (logLevel c) (logMode c) v (enableFileWatcher c) (enableAutoRemove c).
Definition set_enableFileWatcher (v : bool) (c : LoggerConfiguration) :=
  mkConfiguration (logDirectoryPath c) (maxLogFileSize c) (removeLogsOlderThan c)
    (logLevel c) (logMode c) (checkPoint c) v (enableAutoRemove c).
Definition set_enableAutoRemove (v : bool) (c : LoggerConfiguration) :=
  mkConfiguration (logDirectoryPath c) (maxLogFileSize c) (removeLogsOlderThan c)
    (logLevel c) (logMode c) (checkPoint c) (enableFileWatcher c) v.

(** [contains]: the stored value when the key is there.  Otherwise the
    function returns [std::nullopt] as a [std::any]: an any that holds a
    [std::nullopt_t], for which [has_value()] is true. *)
Definition contains (_emap : EMap.t) (_key : string) : any :=
  if EMap.containsKey _key _emap then
    match fst (EMap.get _key _emap) with
    | Some v => Some v
    | None => Some AnyNullopt
    end
  else Some AnyNullopt.

Definition parseMaxLogFileSize (_value : string) : option FileSize.t * list string :=
  FileSize.parseFileSize _value.

(** The match of the pattern of [parseRemoveLogsOlderThan] against the
    whole value.  The pattern is a group of digits with the star
    quantifier, so possibly without any digit, followed by a group that
    is one of the letters S, M, H, d, w, m, y.  The result is the two
    groups. *)
Definition match_duration (_value : string) : option (string * string) :=
  let '(digits, rest) := span_digits _value in
  match rest with
  | String c EmptyString =>
      if existsb (Ascii.eqb c) ["S"; "M"; "H"; "d"; "w"; "m"; "y"]%char
      then Some (digits, rest)
      else None
  | _ => None
  end.

(** [parseRemoveLogsOlderThan]; the product is an [unsigned long long]. *)
Definition parseRemoveLogsOlderThan (_value : string) : result Z :=
  match match_duration _value with
  | Some (number, unit) =>
      let millis :=
        if String.eqb unit "S" then 1000
        else if String.eqb unit "M" then 60000
        else if String.eqb unit "H" then 3600000
        else if String.eqb unit "d" then 86400000
        else if String.eqb unit "w" then 604800000
        else if String.eqb unit "m" then 2629746000
        else 31556952000 in
      TRY n := stoull number IN Ok (wrap64 (n * millis))
  | None => Ok 0
  end.

Definition parseLogLevel (_value : string) : option Logger.LogLevel :=
  let v := transform_tolower _value in
  if String.eqb v "debug" then Some Logger.Debug
  else if String.eqb v "info" then Some Logger.Info
  else if String.eqb v "warn" then Some Logger.Warn
  else if String.eqb v "error" then Some Logger.Error
  else if String.eqb v "fatal" then Some Logger.Fatal
  else None.

Definition parseLogMode (_value : string) : option Logger.LogMode :=
  let v := transform_tolower _value in
  if String.eqb v "console" then Some Logger.Console
  else if String.eqb v "file" then Some Logger.File
  else None.

Fixpoint replace_colons (s : string) : string :=
  match s with
  | EmptyString => EmptyString
  | String c s' => String (if Ascii.eqb c ":" then " "%char else c) (replace_colons s')
  end.

(** The white space [operator>>] skips before it reads. *)
Fixpoint skip_spaces (s : string) : string :=
  match s with
  | String c s' => if isspace c then skip_spaces s' else s
  | EmptyString => s
  end.

Definition INT_MIN : Z := -2147483648.

(** [ss >> temp] for an [int]: white space, an optional sign, digits;
    the extraction fails without a digit or outside the range of [int]. *)
Definition extract_int (s : string) : option (Z * string) :=
  let s := skip_spaces s in
  let '(negative, s) :=
    match s with
    | String "-" r => (true, r)
    | String "+" r => (false, r)
    | _ => (false, s)
    end in
  let '(d, r) := span_digits s in
  match d with
  | EmptyString => None
  | _ =>
      let v := if negative : bool then - decimal_value d else decimal_value d in
      if (INT_MIN <=? v) && (v <=? INT_MAX) then Some (v, r) else None
  end.

Fixpoint extract_ints (fuel : nat) (s : string) (array : list Z) : list Z :=
  match fuel with
  | O => array
  | S fuel' =>
      match extract_int s with
      | None => array
      | Some (temp, r) =>
          extract_ints fuel' r (if 0 <=? temp then array ++ [temp] else array)
      end
  end.

Definition parseCheckPoint (_value : string) : option Date.Time :=
  let v := replace_colons _value in
  match extract_ints (S (String.length v)) v [] with
  | a0 :: a1 :: _ =>
      if (a0 <? 24) && (a1 <? 60) then Some (Date.mkTime a0 a1 0) else None
  | _ => None
  end.

Definition unexpected_option (castedValue : string) : string :=
  "logcplus: Unexpected configuration option: " +:+ castedValue.

(** The eight blocks of the [try] in [load], in their order. *)

Definition load_LogDirectoryPath (m : EMap.t) : M unit :=
  let optValue := contains m "LogDirectoryPath" in
  if has_value optValue then
    DO v := lift (any_cast_string optValue) THEN assign (set_logDirectoryPath v)
  else ret tt.

Definition load_MaxLogFileSize (m : EMap.t) : M unit :=
  let optValue := contains m "MaxLogFileSize" in
  if has_value optValue then
    DO castedValue := lift (any_cast_string optValue) THEN
    let '(result, written) := parseMaxLogFileSize castedValue in
    DO _u := in_order (map report written) THEN
    match result with
    | Some v => assign (set_maxLogFileSize v)
    | None => report (unexpected_option castedValue)
    end
  else ret tt.

Definition load_RemoveLogsOlderThan (m : EMap.t) : M unit :=
  let optValue := contains m "RemoveLogsOlderThan" in
  if has_value optValue then
    DO castedValue := lift (any_cast_string optValue) THEN
    DO value := lift (parseRemoveLogsOlderThan castedValue) THEN
    if negb (value =? 0) then assign (set_removeLogsOlderThan value)
    else report (unexpected_option castedValue)
  else ret tt.

Definition load_LogLevel (m : EMap.t) : M unit :=
  let optValue := contains m "LogLevel" in
  if has_value optValue then
    DO castedValue := lift (any_cast_string optValue) THEN
    match parseLogLevel castedValue with
    | Some v => assign (set_logLevel v)
    | None => report (unexpected_option castedValue)
    end
  else ret tt.

Definition load_LogMode (m : EMap.t) : M unit :=
  let optValue := contains m "LogMode" in
  if has_value optValue then
    DO castedValue := lift (any_cast_string optValue) THEN
    match parseLogMode castedValue with
    | Some v => assign (set_logMode v)
    | None => report (unexpected_option castedValue)
    end
  else ret tt.

Definition load_CheckPoint (m : EMap.t) : M unit :=
  let optValue := contains m "CheckPoint" in
  if has_value optValue then
    DO castedValue := lift (any_cast_string optValue) THEN
    match parseCheckPoint castedValue with
    | Some v => assign (set_checkPoint (Some v))
    | None => report (unexpected_option castedValue)
    end
  else ret tt.

Definition load_EnableFileWatcher (m : EMap.t) : M unit :=
  let optValue := contains m "EnableFileWatcher" in
  if has_value optValue then
    DO v := lift (any_cast_bool optValue) THEN assign (set_enableFileWatcher v)
  else ret tt.

Definition load_EnableAutoRemove (m : EMap.t) : M unit :=
  let optValue := contains m "EnableAutoRemove" in
  if has_value optValue then
    DO v := lift (any_cast_bool optValue) THEN assign (set_enableAutoRemove v)
  else ret tt.

Definition load_try (m : EMap.t) : M unit :=
  in_order
    [load_LogDirectoryPath m; load_MaxLogFileSize m; load_RemoveLogsOlderThan m;
     load_LogLevel m; load_LogMode m; load_CheckPoint m;
     load_EnableFileWatcher m; load_EnableAutoRemove m].

Definition parsing_report : string :=
  "logcplus: Unexpected error when parsing configuration file".

(** [load]: the configuration it returns, or the exception that leaves
    it, and what it wrote to [std::cerr].  [tokens] are the [key value]
    pairs of the file.  The [catch] is for [std::bad_any_cast] only. *)
Definition load (current_path : string) (tokens : list (string * string))
    : result LoggerConfiguration * list string :=
  let config := default_configuration current_path in
  match EMap.read tokens with
  | Throw e => (Throw e, [])
  | Ok (status, mapController) =>
      if (status : bool) && (0 <? size mapController)%nat then
        match load_try mapController (mkState config []) with
        | (Ok _, st) => (Ok (LoggerConfigurator.config st), cerr st)
        | (Throw bad_any_cast, st) =>
            (Ok (LoggerConfigurator.config st), cerr st ++ [parsing_report])
        | (Throw e, st) => (Throw e, cerr st)
        end
      else (Ok config, [])
  end.
End LoggerConfigurator.

(** ** LogManager *)

Module LogManager.
(** [enableDirectoryWatcher]: the watcher it starts, if it starts one. *)
Definition enableDirectoryWatcher (configuration_ : LoggerConfigurator.LoggerConfiguration)
    : option DirectoryWatcher.t :=
  if (0 <? LoggerConfigurator.removeLogsOlderThan configuration_)
     && LoggerConfigurator.enableAutoRemove configuration_
     && Logger.mode_eqb (LoggerConfigurator.logMode configuration_) Logger.File
  then Some (DirectoryWatcher.mk LOG_FILE_FORMAT
               (LoggerConfigurator.removeLogsOlderThan configuration_)
               (LoggerConfigurator.logDirectoryPath configuration_))
  else None.

(** The callback [enableFileWatcher] hands to the file watcher:
    [Logger::instance()->reopen(configuration_.logDirectoryPath)], on the
    logger and the log directory; [today] is the date of the clock the
    call reads.  Nothing on the timer thread catches an exception of
    [reopen]: the process ends there, and the model returns the world as
    the callback found it. *)
Definition rotation_callback (today : string)
    (configuration_ : LoggerConfigurator.LoggerConfiguration)
    (w : Logger.t * option Dir.listing) : Logger.t * option Dir.listing :=
  match Logger.reopen today (LoggerConfigurator.logDirectoryPath configuration_)
          (fst w) (snd w) with
  | Ok w' => w'
  | Throw _ => w
  end.

(** The size of a file of the log directory, read in that world. *)
Definition file_size (path : string) (w : Logger.t * option Dir.listing) : Z :=
  Dir.file_size path (snd w).

(** The settings [initialize] gives the file watcher; they are not
    written again after a rotation. *)
Definition fileWatcherSettings (lg : Logger.t)
    (configuration_ : LoggerConfigurator.LoggerConfiguration)
    : FileWatcher.FileWatcherSettings :=
  FileWatcher.mkSettings (Logger.fileHandler_name lg)
    (LoggerConfigurator.maxLogFileSize configuration_)
    (LoggerConfigurator.checkPoint configuration_).

(** [setMaxFileSize(const std::string&)]. *)
Definition setMaxFileSize (_fileSize : string)
    (configuration_ : LoggerConfigurator.LoggerConfiguration)
    : LoggerConfigurator.LoggerConfiguration :=
  match fst (FileSize.parseFileSize _fileSize) with
  | Some v => LoggerConfigurator.set_maxLogFileSize v configuration_
  | None => configuration_
  end.
End LogManager.

(** ** Classes of inputs and notions the properties are stated with *)

Definition starts_with_digit (s : string) : bool :=
  match s with
  | String c _ => isdigit c
  | EmptyString => false
  end.


(** The unit letters of [RemoveLogsOlderThan]. *)
Definition duration_unit_known (unit : string) : bool :=
  existsb (String.eqb unit) ["S"; "M"; "H"; "d"; "w"; "m"; "y"]%string.


(** The configuration file of the comment of [load], with two days of
    retention. *)
Definition example_configuration_file : list (string * string) :=
  [("LogDirectoryPath", "/home/user/logs"); ("MaxLogFileSize", "100MiB");
   ("RemoveLogsOlderThan", "2d"); ("LogLevel", "Info"); ("LogMode", "File");
   ("CheckPoint", "11:45"); ("EnableFileWatcher", "true");
   ("EnableAutoRemove", "true")]%string.



(** The pattern is empty or the file name matches it. *)
Definition name_accepted (pattern name : string) : bool :=
  match pattern with
  | EmptyString => true
  | _ =>
      match Regex.regex_match name pattern with
      | Some b => b
      | None => false
      end
  end.



(** The tests of the loop of [filesOlderThan] on one entry, with the
    limit as the loop is given it. *)
Definition passes_the_loop (now _limit : Z) (pattern : string)
    (e : Fs.entry) : bool :=
  name_accepted pattern (Fs.filename (Fs.path e))
  && Fs.regular e
  && DirectoryWatcher.isFileOlderThan now e _limit.

(** The tree without the entries at the given paths. *)
Definition without (paths : list string) (fs : Fs.tree) : Fs.tree :=
  List.filter (fun e => negb (existsb (String.eqb (Fs.path e)) paths)) fs.

(** A log directory with two rotated files of past days, both older than
    the retention age of the watcher below at [example_now]; the system
    refuses to delete the first one. *)
Definition example_tree : Fs.tree :=
  [Fs.mkEntry "/logs/2024-01-01.log.1" true 0 true;
   Fs.mkEntry "/logs/2024-01-02.log.1" true 0 false]%string.

Definition example_watcher : DirectoryWatcher.t :=
  DirectoryWatcher.mk LOG_FILE_FORMAT 86400000 "/logs".

(** Ten days after the last modification of the two files. *)
Definition example_now : Z := 10 * 86400000 * 1000000.





(** A logger that has written to the file of the first of January, with
    a checkpoint at midnight and a size limit of ten bytes, at the first
    tick of the next day. *)
Definition example_rotating_configuration : LoggerConfigurator.LoggerConfiguration :=
  LoggerConfigurator.mkConfiguration "/logs" (FileSize.mk 10 FileSize.B) 0
    Logger.Debug Logger.File (Some (Date.mkTime 0 0 0)) true false.

Definition example_logger : Logger.t :=
  Logger.mk Logger.File Logger.Debug true "/logs/2024-01-01.log" [] true false.

Definition example_log_directory : Dir.listing :=
  {["2024-01-01.log"%string := "[INFO] 2024-01-01 23:59:58 - last line of the day"%string]}.

(** Whether a call of an entry point gets past the level [M] of the
    logger: the five helpers compare, [log] does not. *)
Definition passes (M : Logger.LogLevel) (e : Logger.entry_point) : bool :=
  match e with
  | Logger.ViaLog _ => true
  | _ => Logger.level_le M (Logger.level_of e)
  end.

(** The line a call puts on the queue when it gets past the level. *)
Definition line_of (call : Logger.entry_point * string * list string) : string :=
  Logger.format_line call.1.2 (Logger.level_of call.1.1) call.2.



(** The name of the N-th rotated file of a day. *)
Definition rotated_name (today : string) (N : Z) : string :=
  (today +:+ ".log") +:+ "." +:+ to_string N.

(** The milliseconds of a unit letter of [RemoveLogsOlderThan], as the
    constants of [Timer::TimeToMilliseconds] have them. *)
Definition duration_unit_milliseconds (unit : string) : Z :=
  if String.eqb unit "S" then Timer.SECOND
  else if String.eqb unit "M" then Timer.MINUTE
  else if String.eqb unit "H" then Timer.HOUR
  else if String.eqb unit "d" then Timer.DAY
  else if String.eqb unit "w" then Timer.WEEK
  else if String.eqb unit "m" then Timer.MONTH
  else if String.eqb unit "y" then Timer.YEAR
  else 0.

(** The names of the modes, in lower case. *)
Definition mode_name (m : Logger.LogMode) : string :=
  match m with
  | Logger.Console => "console"
  | Logger.File => "file"
  end.

(** What [EMap::read] stores for a value token: a number when the token
    is made of digits, a boolean when it is one of the two names in any
    case, the text otherwise. *)
Definition classify (value : string) : any_content :=
  if EMap.isNumber value then AnyInt (decimal_value value)
  else if EMap.isBool value then AnyBool (String.eqb (transform_tolower value) "true")
  else AnyString value.

(** A token of digits whose value does not fit an [int]. *)
Definition too_large (value : string) : bool :=
  EMap.isNumber value && (INT_MAX <? decimal_value value).

(** The value of the last pair of the file with the given key. *)
Fixpoint last_value (key : string) (tokens : list (string * string)) : option string :=
  match tokens with
  | [] => None
  | (k, v) :: rest =>
      match last_value key rest with
      | Some v' => Some v'
      | None => if String.eqb k key then Some v else None
      end
  end.

(** The keys [load] reads as texts and as booleans, and a map that holds
    a value of the expected type for each of them. *)
Definition string_keys : list string :=
  ["LogDirectoryPath"; "MaxLogFileSize"; "RemoveLogsOlderThan"; "LogLevel";
   "LogMode"; "CheckPoint"]%string.

Definition bool_keys : list string :=
  ["EnableFileWatcher"; "EnableAutoRemove"]%string.

Definition holds_string (m : EMap.t) (key : string) : bool :=
  match m !! key with Some (AnyString _) => true | _ => false end.

Definition holds_bool (m : EMap.t) (key : string) : bool :=
  match m !! key with Some (AnyBool _) => true | _ => false end.

Definition complete (m : EMap.t) : bool :=
  forallb (holds_string m) string_keys && forallb (holds_bool m) bool_keys.

(** A computation of [load] that can end by the exception [e]. *)
Definition may_raise {A : Type} (c : LoggerConfigurator.M A) (e : exn) : Prop :=
  ∃ st st', c st = (Throw e, st').

(** A date as [currentTime("%Y-%m-%d")] prints it for a year of four
    digits. *)
Definition is_date (today : string) : bool :=
  match today with
  | String y1 (String y2 (String y3 (String y4 (String s1 (String m1 (String m2
      (String s2 (String d1 (String d2 EmptyString))))))))) =>
      isdigit y1 && isdigit y2 && isdigit y3 && isdigit y4
      && Ascii.eqb s1 "-" && isdigit m1 && isdigit m2
      && Ascii.eqb s2 "-" && isdigit d1 && isdigit d2
  | _ => false
  end.

(** A text that occurs in another one, as [std::string::find] looks for
    it. *)
Definition occurs_in (needle haystack : string) : Prop :=
  ∃ before after, haystack = before +:+ needle +:+ after.

(** * Properties *)

(** ** The record queue *)

Section QueueFacts.
Context {T : Type}.
Import ConcurrentQueue.

Lemma enqueued_app (es1 es2 : list (event T)) :
  enqueued (es1 ++ es2) = enqueued es1 ++ enqueued es2.
Proof. unfold enqueued. apply flat_map_app. Qed.

(** The invariant of every execution: what was taken out, followed by
    what is still inside, is what was there followed by what was put in,
    in that order. *)
Lemma steps_fifo (q0 : t T) es q :
  steps q0 es q → dequeued es ++ q = q0 ++ enqueued es.
Proof.
  induction 1 as [q | q e q1 es q2 Hstep _ IH].
  - simpl. by rewrite app_nil_r.
  - inversion Hstep as [q' x | q' x q'' Hdeq]; subst; simpl.
    + rewrite IH. unfold enqueue. by rewrite <- app_assoc.
    + destruct q as [| y q']; simpl in Hdeq; [discriminate |].
      injection Hdeq as -> ->. simpl. by rewrite IH.
Qed.

Lemma run_enqueues (items : list T) rs q :
  run (map ReqEnqueue items ++ rs) q = run rs (q ++ items).
Proof.
  revert q. induction items as [| x items IH]; intros q; simpl.
  - by rewrite app_nil_r.
  - rewrite IH. unfold enqueue. by rewrite <- app_assoc.
Qed.

Lemma run_dequeues (items : list T) :
  run (repeat ReqDequeue (List.length items)) items = Some (items, []).
Proof.
  induction items as [| x items IH]; simpl; [done |]. by rewrite IH.
Qed.
End QueueFacts.

(** C6.  The record queue is a strict FIFO without a capacity bound:
    enqueue is enabled in every state and appends its item at the end,
    whatever the length; dequeue on a non-empty queue removes the head and
    returns it; in every execution the items taken out, followed by the
    items still inside, are the initial items followed by the enqueued
    ones, in the order of their enqueue; and n enqueues followed by n
    dequeues return the n items in the order they were enqueued and leave
    the queue empty. *)
Theorem queue_strict_fifo (T : Type) :
  (∀ (x : T) (q : ConcurrentQueue.t T),
     ConcurrentQueue.step q (ConcurrentQueue.Enq x) (q ++ [x])
     ∧ ConcurrentQueue.length (ConcurrentQueue.enqueue x q)
       = ConcurrentQueue.length q + 1)
  ∧ (∀ (q : ConcurrentQueue.t T), q ≠ [] →
       ∃ x q', q = x :: q' ∧ ConcurrentQueue.dequeue q = Some (x, q'))
  ∧ (∀ (q0 : ConcurrentQueue.t T) es q,
       ConcurrentQueue.steps q0 es q →
       ConcurrentQueue.dequeued es ++ q = q0 ++ ConcurrentQueue.enqueued es)
  ∧ (∀ items : list T,
       ConcurrentQueue.run
         (map ConcurrentQueue.ReqEnqueue items
          ++ repeat ConcurrentQueue.ReqDequeue (List.length items)) []
       = Some (items, [])).
Proof.
  split; [| split; [| split]].
  - intros x q. split.
    + apply ConcurrentQueue.step_enq.
    + unfold ConcurrentQueue.length, ConcurrentQueue.enqueue.
      rewrite length_app. simpl. lia.
  - intros [| x q'] Hne; [done |]. by exists x, q'.
  - intros q0 es q. apply steps_fifo.
  - intros items. rewrite run_enqueues. simpl. apply run_dequeues.
Qed.

(** An execution with interleaved enqueues and dequeues. *)
Lemma queue_strict_fifo_witness :
  ConcurrentQueue.dequeued
    [ConcurrentQueue.Enq 1; ConcurrentQueue.Enq 2; ConcurrentQueue.Deq 1;
     ConcurrentQueue.Enq 3; ConcurrentQueue.Deq 2] ++ [3]
  = [] ++ ConcurrentQueue.enqueued
      [ConcurrentQueue.Enq 1; ConcurrentQueue.Enq 2; ConcurrentQueue.Deq 1;
       ConcurrentQueue.Enq 3; ConcurrentQueue.Deq 2].
Proof.
  apply (proj1 (proj2 (proj2 (queue_strict_fifo Z)))).
  repeat (eapply ConcurrentQueue.steps_cons;
          [first [apply ConcurrentQueue.step_enq
                 | apply ConcurrentQueue.step_deq; reflexivity] |]).
  apply ConcurrentQueue.steps_nil.
Defined.

(** C10.  [take] is defined exactly on the non-empty queues: it returns
    an item if and only if the queue has that item at its head, it has no
    result on the empty queue, and the item it returned is still the head
    afterwards, so that the next dequeue returns the same item. *)
Theorem take_needs_non_empty (T : Type) (q : ConcurrentQueue.t T) :
  (∀ x, ConcurrentQueue.take q = Some x ↔ ∃ rest, q = x :: rest)
  ∧ (ConcurrentQueue.take q = None ↔ q = [])
  ∧ (∀ x, ConcurrentQueue.take q = Some x →
          ∃ rest, ConcurrentQueue.dequeue q = Some (x, rest)
                  ∧ List.length q = S (List.length rest)).
Proof.
  destruct q as [| y q']; simpl.
  - split; [| split]; [| done |].
    + intros x. split; [done |]. by intros [rest ?].
    + by intros x.
  - split; [| split].
    + intros x. split.
      * intros [= ->]. by exists q'.
      * by intros [rest [= -> ->]].
    + done.
    + intros x [= ->]. by exists q'.
Qed.

Lemma take_needs_non_empty_witness :
  (ConcurrentQueue.take ["a"; "b"] = Some "a"
   ↔ ∃ rest, ["a"; "b"] = "a" :: rest)
  ∧ ConcurrentQueue.take (@nil string) = None.
Proof.
  split.
  - apply (proj1 (take_needs_non_empty string ["a"; "b"]) "a").
  - by apply (proj1 (proj2 (take_needs_non_empty string []))).
Defined.

(** ** Texts *)

Lemma append_nil_l (s : string) : "" +:+ s = s.
Proof. reflexivity. Qed.

Lemma append_cons (c : ascii) (a b : string) :
  String c a +:+ b = String c (a +:+ b).
Proof. reflexivity. Qed.

Lemma append_empty_r (s : string) : s +:+ "" = s.
Proof.
  induction s as [| c s IH]; [done |]. by rewrite append_cons, IH.
Qed.

Lemma append_assoc (a b c : string) : (a +:+ b) +:+ c = a +:+ (b +:+ c).
Proof.
  induction a as [| x a IH]; [done |]. by rewrite !append_cons, IH.
Qed.

Lemma length_append (a b : string) :
  String.length (a +:+ b) = (String.length a + String.length b)%nat.
Proof.
  induction a as [| x a IH]; [done |]. rewrite append_cons. simpl. by rewrite IH.
Qed.

Lemma span_digits_append (d u : string) :
  all_digits d = true → starts_with_digit u = false →
  span_digits (d +:+ u) = (d, u).
Proof.
  intros Hd Hu. induction d as [| c d IH].
  - rewrite append_nil_l. destruct u as [| c r]; simpl in *; [done |].
    by rewrite Hu.
  - simpl in Hd. apply andb_prop in Hd as [Hc Hd].
    rewrite append_cons. simpl. by rewrite Hc, (IH Hd).
Qed.

Lemma span_digits_all (s : string) : all_digits s = true → span_digits s = (s, ""%string).
Proof.
  intros H. pose proof (span_digits_append s "" H eq_refl) as E.
  by rewrite append_empty_r in E.
Qed.


(** ** File sizes *)

(** C9.  A text made of digits only, the empty text included, is not
    rejected and its digits are not read as a number of bytes:
    [parseFileSize] returns the size it starts from, one byte. *)
Theorem parseFileSize_digits_only (s : string) :
  all_digits s = true →
  FileSize.parseFileSize s = (Some (FileSize.mk 1 FileSize.B), [])
  ∧ FileSize.bsize (FileSize.mk 1 FileSize.B) = 1.
Proof.
  intros H. split; [| reflexivity].
  unfold FileSize.parseFileSize. rewrite (span_digits_all s H).
  by rewrite Nat.ltb_irrefl, andb_false_r.
Qed.

Lemma parseFileSize_digits_only_witness :
  (FileSize.parseFileSize "100" = (Some (FileSize.mk 1 FileSize.B), [])
   ∧ FileSize.bsize (FileSize.mk 1 FileSize.B) = 1)
  ∧ (FileSize.parseFileSize "" = (Some (FileSize.mk 1 FileSize.B), [])
     ∧ FileSize.bsize (FileSize.mk 1 FileSize.B) = 1).
Proof.
  split.
  - apply (parseFileSize_digits_only "100"). reflexivity.
  - apply (parseFileSize_digits_only ""). reflexivity.
Defined.


(** ** Retention ages *)



Lemma parseRemoveLogsOlderThan_no_digits (c : ascii) :
  duration_unit_known (String c "") = true →
  LoggerConfigurator.parseRemoveLogsOlderThan (String c "") = Throw invalid_argument.
Proof.
  unfold duration_unit_known. intros H.
  apply existsb_exists in H as (u & Hin & Heq).
  apply String.eqb_eq in Heq as <-.
  simpl in Hin. by repeat destruct Hin as [[= <-] | Hin].
Qed.

(** ** Loading the configuration *)

Section LoadFacts.
Import LoggerConfigurator.
Context {B : Type} (field : LoggerConfiguration → B).







End LoadFacts.



Section LoadBlocks.
Import LoggerConfigurator.

Lemma contains_string (m : EMap.t) (key v : string) :
  m !! key = Some (AnyString v) → contains m key = Some (AnyString v).
Proof.
  intros H. unfold contains, EMap.containsKey, EMap.get. by rewrite H.
Qed.

Lemma bind_lift_Ok {A C} (a : A) (k : A → M C) : bind (lift (Ok a)) k = k a.
Proof. reflexivity. Qed.

Lemma reports_end_normally (written : list string) st :
  ∃ st', in_order (map report written) st = (Ok tt, st').
Proof.
  revert st. induction written as [| line written IH]; intros st; simpl.
  - by eexists.
  - unfold bind, report at 1. simpl. apply IH.
Qed.







End LoadBlocks.




(** C7, at the input where the code departs from it.  A value of
    [RemoveLogsOlderThan] that is a unit letter without digits matches the
    pattern of [parseRemoveLogsOlderThan] with an empty group of digits,
    [std::stoull] throws [std::invalid_argument] on the empty text, and
    [load], which catches [std::bad_any_cast] only, is left by that
    exception: no report, no configuration.  The last part is a second
    value that is not reported: a size without digits is taken as the one
    byte [parseFileSize] starts from (the report in the result is the one
    for the keys missing from the file). *)
Theorem load_throws_on_unit_without_digits :
  (∀ c, duration_unit_known (String c "") = true →
        LoggerConfigurator.parseRemoveLogsOlderThan (String c "")
        = Throw invalid_argument)
  ∧ (∀ cwd,
       LoggerConfigurator.load cwd
         [("LogDirectoryPath", "/home/user/logs"); ("MaxLogFileSize", "100MiB");
          ("RemoveLogsOlderThan", "d")]%string
       = (Throw invalid_argument, []))
  ∧ (∀ cwd tokens (m : EMap.t) c dir max,
       EMap.read tokens = Ok (true, m) →
       m !! "LogDirectoryPath"%string = Some (AnyString dir) →
       m !! "MaxLogFileSize"%string = Some (AnyString max) →
       m !! "RemoveLogsOlderThan"%string = Some (AnyString (String c "")) →
       duration_unit_known (String c "") = true →
       fst (LoggerConfigurator.load cwd tokens) = Throw invalid_argument)
  ∧ (∀ cwd,
       LoggerConfigurator.load cwd
         [("LogDirectoryPath", "/home/user/logs"); ("MaxLogFileSize", "XB")]%string
       = (Ok (LoggerConfigurator.mkConfiguration "/home/user/logs"
                (FileSize.mk 1 FileSize.B) 0 Logger.Debug Logger.Console None
                false false),
          [LoggerConfigurator.parsing_report])).
Proof.
  split; [apply parseRemoveLogsOlderThan_no_digits |].
  split; [intros cwd; by vm_compute |].
  split; [| intros cwd; by vm_compute].
  intros cwd tokens m c dir max Hr Hd Hs Ha Hc.
  unfold LoggerConfigurator.load. rewrite Hr. simpl.
  assert (0 < size m)%nat as Hsz.
  { destruct (decide (size m = 0%nat)) as [E | E]; [| lia].
    apply map_size_empty_iff in E. subst m. by rewrite lookup_empty in Hd. }
  apply Nat.ltb_lt in Hsz. rewrite Hsz.
  unfold LoggerConfigurator.load_try. simpl.
  unfold LoggerConfigurator.load_LogDirectoryPath at 1.
  rewrite (contains_string _ _ _ Hd). simpl.
  unfold LoggerConfigurator.load_MaxLogFileSize at 1.
  rewrite (contains_string _ _ _ Hs). simpl.
  unfold LoggerConfigurator.load_RemoveLogsOlderThan at 1.
  rewrite (contains_string _ _ _ Ha). simpl.
  rewrite !bind_lift_Ok, (parseRemoveLogsOlderThan_no_digits c Hc).
  unfold LoggerConfigurator.parseMaxLogFileSize.
  destruct (FileSize.parseFileSize max) as [r written].
  unfold LoggerConfigurator.bind at 1. unfold LoggerConfigurator.assign at 1. simpl.
  unfold LoggerConfigurator.bind at 1.
  unfold LoggerConfigurator.bind at 1.
  destruct (reports_end_normally written
    {| LoggerConfigurator.config :=
         LoggerConfigurator.set_logDirectoryPath dir
           (LoggerConfigurator.default_configuration cwd);
       LoggerConfigurator.cerr := [] |}) as [st1 E].
  rewrite E. by destruct r.
Qed.

(** ** The pattern of the rotated files *)

Section RegexFacts.
Import Regex.





End RegexFacts.

(** ** The retention sweep *)

Section SweepFacts.
Import DirectoryWatcher.


(** [filesOlderThan] returns, in the order of the tree, the paths of the
    entries that the description selects. *)
Lemma filesOlderThan_spec now (fs : Fs.tree) limit pattern sel :
  filesOlderThan now fs limit pattern = Some sel →
  sel = map Fs.path (List.filter (passes_the_loop now limit pattern) fs).
Proof.
  revert sel. induction fs as [| e fs IH]; intros sel; simpl.
  - by intros [= <-].
  - unfold passes_the_loop at 1, name_accepted at 1.
    destruct pattern as [| c pattern].
    + destruct (filesOlderThan now fs limit "") as [r |]; [| done].
      intros [= <-]. rewrite (IH r eq_refl). simpl.
      by destruct (Fs.regular e && isFileOlderThan now e limit).
    + destruct (Regex.regex_match _ _) as [[] |]; [| | done].
      * destruct (filesOlderThan now fs limit _) as [r |]; [| done].
        intros [= <-]. rewrite (IH r eq_refl). simpl.
        by destruct (Fs.regular e && isFileOlderThan now e limit).
      * destruct (filesOlderThan now fs limit _) as [r |]; [| done].
        intros [= <-]. by rewrite (IH r eq_refl).
Qed.

Lemma filesOlderThan_total now (fs : Fs.tree) limit pattern :
  pattern = ""%string ∨ is_Some (Regex.regex_parse pattern) →
  is_Some (filesOlderThan now fs limit pattern).
Proof.
  intros Hp. induction fs as [| e fs [r IH]]; simpl; [by eexists |].
  rewrite IH. destruct pattern as [| c pattern]; [by eexists |].
  destruct Hp as [| [ps Hps]]; [done |].
  unfold Regex.regex_match. rewrite Hps.
  destruct (Regex.match_pieces ps _); by eexists.
Qed.

Lemma elem_of_selected now (fs : Fs.tree) limit pattern sel p :
  filesOlderThan now fs limit pattern = Some sel →
  p ∈ sel ↔ ∃ e, e ∈ fs ∧ Fs.path e = p
               ∧ passes_the_loop now limit pattern e = true.
Proof.
  intros H. rewrite (filesOlderThan_spec _ _ _ _ _ H).
  rewrite list_elem_of_In, in_map_iff. split.
  - intros (e & <- & Hin). apply filter_In in Hin as [Hin Hsel].
    exists e. by rewrite list_elem_of_In.
  - intros (e & Hin & <- & Hsel). exists e. split; [done |].
    apply filter_In. by rewrite <- list_elem_of_In.
Qed.

(** *** Deleting *)

Lemma find_none_filter (p : string) (fs : Fs.tree) :
  List.find (Fs.at_path p) fs = None →
  List.filter (fun e => negb (Fs.at_path p e)) fs = fs.
Proof.
  induction fs as [| e fs IH]; simpl; [done |].
  destruct (Fs.at_path p e); [done |]. simpl. intros H. by rewrite IH.
Qed.

Lemma remove_Ok p (fs : Fs.tree) r :
  Fs.remove p fs = Ok r → snd r = without [p] fs.
Proof.
  unfold Fs.remove, without.
  assert (∀ l, List.filter (λ e, negb (existsb (String.eqb (Fs.path e)) [p])) l
               = List.filter (λ e, negb (Fs.at_path p e)) l) as Hf.
  { intros l. apply filter_ext. intros e. simpl. unfold Fs.at_path.
    by rewrite orb_false_r. }
  rewrite Hf.
  destruct (List.find (Fs.at_path p) fs) as [e |] eqn:E.
  - destruct (Fs.unlink_denied e); [done |]. by intros [= <-].
  - intros [= <-]. simpl. by rewrite find_none_filter.
Qed.

Lemma without_nil (fs : Fs.tree) : without [] fs = fs.
Proof.
  unfold without. simpl. induction fs as [| e fs IH]; simpl; [done | by f_equal].
Qed.

Lemma without_without ps qs (fs : Fs.tree) :
  without qs (without ps fs) = without (ps ++ qs) fs.
Proof.
  unfold without. induction fs as [| e fs IH]; simpl; [done |].
  rewrite existsb_app. destruct (existsb _ ps); simpl; [done |].
  destruct (existsb _ qs); simpl; by rewrite IH.
Qed.

Lemma elem_of_without ps (fs : Fs.tree) e :
  e ∈ without ps fs ↔ e ∈ fs ∧ Fs.path e ∉ ps.
Proof.
  unfold without. rewrite !list_elem_of_In, filter_In, negb_true_iff.
  rewrite <- not_true_iff_false, existsb_exists.
  split; intros [Hin Hn]; (split; [done |]).
  - intros Hp. apply Hn. exists (Fs.path e).
    split; [done | apply String.eqb_refl].
  - intros (x & Hx & Heq). apply String.eqb_eq in Heq as <-. by apply Hn.
Qed.

(** The loop ends with the tree without a prefix of the files it was
    given: all of them when no exception ended it. *)
Lemma remove_loop_spec files (fs : Fs.tree) fs' thrown :
  remove_loop files fs = (fs', thrown) →
  ∃ before rest, files = before ++ rest ∧ fs' = without before fs
                 ∧ (thrown = None → rest = []).
Proof.
  revert fs. induction files as [| f files IH]; intros fs; simpl.
  - intros [= <- <-]. exists [], []. by rewrite without_nil.
  - destruct (Fs.remove f fs) as [r | x] eqn:E.
    + intros H. apply IH in H as (before & rest & -> & -> & Hr).
      exists (f :: before), rest. split; [done |]. split; [| done].
      rewrite (remove_Ok _ _ _ E). apply without_without.
    + intros [= <- <-]. exists [], (f :: files). by rewrite without_nil.
Qed.

Lemma find_filter_keep {A} (P Q : A → bool) (l : list A) :
  (∀ x, P x = true → Q x = true) →
  List.find P (List.filter Q l) = List.find P l.
Proof.
  intros H. induction l as [| x l IH]; simpl; [done |].
  destruct (P x) eqn:HP.
  - rewrite (H x HP). simpl. by rewrite HP.
  - destruct (Q x); simpl; [by rewrite HP |]. done.
Qed.

(** While nothing is refused, the loop deletes. *)
Lemma remove_loop_deletes before rest (fs : Fs.tree) :
  (∀ e, e ∈ fs → Fs.path e ∈ before → Fs.unlink_denied e = false) →
  remove_loop (before ++ rest) fs = remove_loop rest (without before fs).
Proof.
  revert fs. induction before as [| f before IH]; intros fs Hok; simpl.
  - by rewrite without_nil.
  - destruct (Fs.remove f fs) as [r | x] eqn:E.
    + rewrite (remove_Ok _ _ _ E), IH, without_without; [done |].
      intros e [Hin _]%elem_of_without Hp. apply Hok; [done |].
      by apply elem_of_cons; right.
    + exfalso. unfold Fs.remove in E.
      destruct (List.find (Fs.at_path f) fs) as [e |] eqn:Hf; [| done].
      apply find_some in Hf as [Hin Hat]. apply String.eqb_eq in Hat.
      rewrite (Hok e) in E; [done | by apply list_elem_of_In |].
      rewrite Hat. by apply elem_of_cons; left.
Qed.
End SweepFacts.



(** C4, as the code has it.  When the deletion of one of the selected
    files fails while the ones before it could be deleted, the sweep ends
    there: [removeOldLogFiles] returns normally, the failure is reported
    once, the files before the failing one are gone, and the failing file
    and every file after it in the sweep are left in the tree, not
    processed. *)
Theorem sweep_ends_at_first_failure w now (fs : Fs.tree) before f after e :
  DirectoryWatcher.filesOlderThan now fs
    (DirectoryWatcher.milliseconds (DirectoryWatcher.fileExpiration_ w))
    (DirectoryWatcher.filePattern_ w) = Some (before ++ f :: after) →
  (∀ e', e' ∈ fs → Fs.path e' ∈ before → Fs.unlink_denied e' = false) →
  List.find (Fs.at_path f) fs = Some e → Fs.unlink_denied e = true →
  DirectoryWatcher.removeOldLogFiles w now fs
  = Some (without before fs, [DirectoryWatcher.deletion_report])
  ∧ (∀ e', e' ∈ fs → Fs.path e' ∈ f :: after → Fs.path e' ∉ before →
           e' ∈ without before fs).
Proof.
  intros Hsel Hok Hfind Hdenied. split.
  - unfold DirectoryWatcher.removeOldLogFiles. rewrite Hsel.
    rewrite (remove_loop_deletes before (f :: after) fs Hok). simpl.
    assert (Fs.remove f (without before fs) = Throw filesystem_error) as ->; [| done].
    unfold Fs.remove, without. rewrite find_filter_keep, Hfind, Hdenied; [done |].
    intros x Hx. apply String.eqb_eq in Hx. apply negb_true_iff.
    apply not_true_iff_false. intros (p & Hp & Heq)%existsb_exists.
    apply String.eqb_eq in Heq as <-.
    apply find_some in Hfind as [Hin Hat]. apply String.eqb_eq in Hat.
    rewrite (Hok e) in Hdenied; [done | by apply list_elem_of_In |].
    rewrite Hat, <- Hx. by apply list_elem_of_In.
  - intros e' Hin _ Hnot. by apply elem_of_without.
Qed.

Lemma sweep_ends_at_first_failure_witness :
  DirectoryWatcher.removeOldLogFiles example_watcher example_now example_tree
  = Some (without [] example_tree, [DirectoryWatcher.deletion_report])
  ∧ (∀ e', e' ∈ example_tree →
       Fs.path e' ∈ ["/logs/2024-01-01.log.1"; "/logs/2024-01-02.log.1"]%string →
       Fs.path e' ∉ @nil string → e' ∈ without [] example_tree).
Proof.
  apply (sweep_ends_at_first_failure example_watcher example_now example_tree
           [] "/logs/2024-01-01.log.1" ["/logs/2024-01-02.log.1"]%string
           (Fs.mkEntry "/logs/2024-01-01.log.1" true 0 true)).
  - reflexivity.
  - intros e' _ Hp. by apply elem_of_nil in Hp.
  - reflexivity.
  - reflexivity.
Defined.

(** C4, as it is stated, fails on the example tree: both rotated files
    are selected, the second one could be deleted, the deletion of the
    first one is refused, and the sweep leaves both in place. *)
Lemma sweep_abandons_remaining_files :
  DirectoryWatcher.filesOlderThan example_now example_tree
    (DirectoryWatcher.milliseconds 86400000) LOG_FILE_FORMAT
  = Some ["/logs/2024-01-01.log.1"; "/logs/2024-01-02.log.1"]%string
  ∧ Fs.remove "/logs/2024-01-02.log.1" example_tree
    = Ok (true, [Fs.mkEntry "/logs/2024-01-01.log.1" true 0 true])
  ∧ DirectoryWatcher.removeOldLogFiles example_watcher example_now example_tree
    = Some (example_tree, [DirectoryWatcher.deletion_report]).
Proof. by vm_compute. Qed.






(** ** The file watcher *)

(** C1, as the code has it.  In a tick whose checkpoint hour and minute
    are the current ones the callback is called, and the size of the file
    is still checked, on the size read after that call: the callback is
    called a second time when that size exceeds the limit.  In every other
    tick the callback is called exactly when the size of the file exceeds
    the limit.  No tick calls the callback more than twice. *)
Theorem tick_calls_callback {World : Type} (callback_ : World → World)
    (file_size : string → World → Z)
    (s : FileWatcher.FileWatcherSettings) (currTime : Date.Time) (w : World) :
  let over (w' : World) :=
    FileSize.bsize (FileWatcher.maxFileSize s) <? file_size (FileWatcher.filePath s) w' in
  (FileWatcher.checkpoint_reached s currTime = true ↔
     ∃ cp, FileWatcher.checkPoint s = Some cp
           ∧ Date.hour cp = Date.hour currTime
           ∧ Date.minute cp = Date.minute currTime)
  ∧ (FileWatcher.checkpoint_reached s currTime = true →
       FileWatcher.isTimeToCallback callback_ file_size s currTime w
       = if over (callback_ w)
         then (callback_ (callback_ w), 2%nat)
         else (callback_ w, 1%nat))
  ∧ (FileWatcher.checkpoint_reached s currTime = false →
       FileWatcher.isTimeToCallback callback_ file_size s currTime w
       = if over w then (callback_ w, 1%nat) else (w, 0%nat))
  ∧ (snd (FileWatcher.isTimeToCallback callback_ file_size s currTime w) ≤ 2)%nat.
Proof.
  intros over. unfold FileWatcher.isTimeToCallback. repeat split.
  - unfold FileWatcher.checkpoint_reached.
    destruct (FileWatcher.checkPoint s) as [cp |]; [| done].
    intros [H1 H2]%andb_prop. exists cp. split; [done |]. lia.
  - intros (cp & Hcp & Hh & Hm). unfold FileWatcher.checkpoint_reached.
    rewrite Hcp. apply andb_true_intro. lia.
  - by intros ->.
  - by intros ->.
  - destruct (FileWatcher.checkpoint_reached s currTime);
      match goal with |- context [if ?b then _ else _] => destruct b end;
      simpl; lia.
Qed.

Lemma tick_calls_callback_witness :
  FileWatcher.isTimeToCallback
    (LogManager.rotation_callback "2024-01-02" example_rotating_configuration)
    LogManager.file_size
    (LogManager.fileWatcherSettings example_logger example_rotating_configuration)
    (Date.mkTime 12 0 30) (example_logger, Some example_log_directory)
  = if FileSize.bsize (FileSize.mk 10 FileSize.B)
       <? LogManager.file_size "/logs/2024-01-01.log"
            (example_logger, Some example_log_directory)
    then (LogManager.rotation_callback "2024-01-02" example_rotating_configuration
            (example_logger, Some example_log_directory), 1%nat)
    else ((example_logger, Some example_log_directory), 0%nat).
Proof.
  apply (proj1 (proj2 (proj2 (tick_calls_callback
    (LogManager.rotation_callback "2024-01-02" example_rotating_configuration)
    LogManager.file_size
    (LogManager.fileWatcherSettings example_logger example_rotating_configuration)
    (Date.mkTime 12 0 30) (example_logger, Some example_log_directory))))).
  reflexivity.
Defined.

(** C1, as it is stated, fails at the first tick after midnight of the
    example: the checkpoint is reached and the callback rotates the log,
    the size check is made all the same, on the file of the day before
    that the settings still name, and the callback is called a second
    time in the same tick; the directory then holds two files of the new
    day, listed here with their contents. *)
Lemma tick_rotates_twice :
  FileWatcher.checkpoint_reached
    (LogManager.fileWatcherSettings example_logger example_rotating_configuration)
    (Date.mkTime 0 0 30) = true
  ∧ snd (FileWatcher.isTimeToCallback
           (LogManager.rotation_callback "2024-01-02" example_rotating_configuration)
           LogManager.file_size
           (LogManager.fileWatcherSettings example_logger example_rotating_configuration)
           (Date.mkTime 0 0 30) (example_logger, Some example_log_directory))
    = 2%nat
  ∧ map_to_list <$>
      snd (fst (FileWatcher.isTimeToCallback
             (LogManager.rotation_callback "2024-01-02" example_rotating_configuration)
             LogManager.file_size
             (LogManager.fileWatcherSettings example_logger example_rotating_configuration)
             (Date.mkTime 0 0 30) (example_logger, Some example_log_directory)))
    = Some [("2024-01-01.log", "[INFO] 2024-01-01 23:59:58 - last line of the day");
            ("2024-01-02.log.1", ""); ("2024-01-02.log", "")]%string.
Proof. by vm_compute. Qed.

(** ** The level filter *)

(** C2, as the code has it.  Through [debug], [info], [warn], [error] and
    [fatal] a message of level L is enqueued if and only if the configured
    level M is at most L in the order Debug < Info < Warn < Error < Fatal,
    and the logger is left as it was otherwise; with M = Warn the messages
    of [warn], [error] and [fatal] pass and those of [debug] and [info] do
    not.  [log] enqueues its message whatever the two levels are. *)
Theorem helpers_filter_by_level (e : Logger.entry_point) (timestamp : string)
    (_args : list string) (lg : Logger.t) :
  (∀ a b, Logger.level_le a b = true ↔ Logger.level_value a ≤ Logger.level_value b)
  ∧ (Logger.level_value Logger.Debug < Logger.level_value Logger.Info
     < Logger.level_value Logger.Warn
     ∧ Logger.level_value Logger.Warn < Logger.level_value Logger.Error
       < Logger.level_value Logger.Fatal)
  ∧ match e with
    | Logger.ViaLog l =>
        Logger.messageQueue_ (Logger.submit e timestamp _args lg)
        = Logger.messageQueue_ lg ++ [Logger.format_line timestamp l _args]
    | _ =>
        (Logger.level_le (Logger.logLevel_ lg) (Logger.level_of e) = true →
           Logger.messageQueue_ (Logger.submit e timestamp _args lg)
           = Logger.messageQueue_ lg
             ++ [Logger.format_line timestamp (Logger.level_of e) _args])
        ∧ (Logger.level_le (Logger.logLevel_ lg) (Logger.level_of e) = false →
             Logger.submit e timestamp _args lg = lg)
    end
  ∧ (Logger.logLevel_ lg = Logger.Warn →
       Logger.debug timestamp _args lg = lg
       ∧ Logger.info timestamp _args lg = lg
       ∧ Logger.messageQueue_ (Logger.warn timestamp _args lg)
         = Logger.messageQueue_ lg ++ [Logger.format_line timestamp Logger.Warn _args]
       ∧ Logger.messageQueue_ (Logger.error timestamp _args lg)
         = Logger.messageQueue_ lg ++ [Logger.format_line timestamp Logger.Error _args]
       ∧ Logger.messageQueue_ (Logger.fatal timestamp _args lg)
         = Logger.messageQueue_ lg ++ [Logger.format_line timestamp Logger.Fatal _args]).
Proof.
  split; [| split; [| split]].
  - intros a b. unfold Logger.level_le. apply Z.leb_le.
  - by vm_compute.
  - destruct e; simpl; try done;
      unfold Logger.debug, Logger.info, Logger.warn, Logger.error, Logger.fatal;
      (split; intros ->; done).
  - intros H. unfold Logger.debug, Logger.info, Logger.warn, Logger.error,
      Logger.fatal. rewrite H.
    change (Logger.level_le Logger.Warn Logger.Debug) with false.
    change (Logger.level_le Logger.Warn Logger.Info) with false.
    change (Logger.level_le Logger.Warn Logger.Warn) with true.
    change (Logger.level_le Logger.Warn Logger.Error) with true.
    change (Logger.level_le Logger.Warn Logger.Fatal) with true.
    repeat split.
Qed.

Lemma helpers_filter_by_level_witness :
  Logger.debug "2024-01-01 10:00:00" ["started"] (Logger.mk Logger.Console Logger.Warn false "" [] true false)
  = Logger.mk Logger.Console Logger.Warn false "" [] true false
  ∧ Logger.info "2024-01-01 10:00:00" ["started"] (Logger.mk Logger.Console Logger.Warn false "" [] true false)
    = Logger.mk Logger.Console Logger.Warn false "" [] true false
  ∧ Logger.messageQueue_
      (Logger.warn "2024-01-01 10:00:00" ["started"] (Logger.mk Logger.Console Logger.Warn false "" [] true false))
    = [] ++ [Logger.format_line "2024-01-01 10:00:00" Logger.Warn ["started"]]
  ∧ Logger.messageQueue_
      (Logger.error "2024-01-01 10:00:00" ["started"] (Logger.mk Logger.Console Logger.Warn false "" [] true false))
    = [] ++ [Logger.format_line "2024-01-01 10:00:00" Logger.Error ["started"]]
  ∧ Logger.messageQueue_
      (Logger.fatal "2024-01-01 10:00:00" ["started"] (Logger.mk Logger.Console Logger.Warn false "" [] true false))
    = [] ++ [Logger.format_line "2024-01-01 10:00:00" Logger.Fatal ["started"]].
Proof.
  apply (proj2 (proj2 (proj2 (helpers_filter_by_level Logger.ViaDebug
    "2024-01-01 10:00:00" ["started"%string]
    (Logger.mk Logger.Console Logger.Warn false "" [] true false))))).
  reflexivity.
Defined.

(** C2, as it is stated, fails for [log]: with the level configured to
    Fatal, a Debug message submitted through [log] is enqueued although
    Fatal is not at most Debug. *)
Lemma log_ignores_level :
  Logger.level_le Logger.Fatal Logger.Debug = false
  ∧ Logger.messageQueue_
      (Logger.submit (Logger.ViaLog Logger.Debug) "2024-01-01 10:00:00" ["started"]
         (Logger.mk Logger.Console Logger.Fatal false "" [] true false))
    = ["[DEBUG] 2024-01-01 10:00:00 - started"%string].
Proof. by vm_compute. Qed.

(** ** Rotation *)

Section ReopenFacts.
Import Logger.

Lemma prefix_refl (s : string) : String.prefix s s = true.
Proof.
  induction s as [| c s IH]; simpl; [done |].
  by destruct (ascii_dec c c).
Qed.

Lemma contains_substring_refl (s : string) : contains_substring s s = true.
Proof.
  destruct s as [| c s]; [done |].
  cbn [contains_substring]. by rewrite prefix_refl.
Qed.

(** A file with the name sought is counted. *)
Lemma anyFileExists_present (d : Dir.listing) name content :
  d !! name = Some content → 1 ≤ anyFileExists d name.
Proof.
  intros H. unfold anyFileExists.
  destruct (size (filter _ d)) eqn:E; [| lia].
  apply map_size_empty_iff in E.
  eapply (map_filter_empty_not_lookup _ _ name content) in E; [done |].
  apply contains_substring_refl.
Qed.

Lemma anyFileExists_none (d : Dir.listing) name :
  anyFileExists d name = 0 →
  filter (λ kv : string * string, contains_substring name kv.1 = true) d = ∅
  ∧ d !! name = None.
Proof.
  intros H. unfold anyFileExists in H.
  assert (filter (λ kv : string * string, contains_substring name kv.1 = true) d = ∅)
    as E by (apply map_size_empty_iff; lia).
  split; [done |].
  destruct (d !! name) as [content |] eqn:Hd; [| done].
  eapply (map_filter_empty_not_lookup _ _ name content) in E; [done |].
  apply contains_substring_refl.
Qed.

Lemma rotated_name_differs (filename suffix : string) :
  filename +:+ "." +:+ suffix ≠ filename.
Proof.
  intros H. apply (f_equal String.length) in H.
  rewrite !length_append in H. simpl in H. lia.
Qed.

Lemma closeHandlers_closed lg :
  fileHandler_open (closeHandlers lg) = false
  ∧ logMode_ (closeHandlers lg) = logMode_ lg.
Proof.
  unfold closeHandlers. destruct (fileHandler_open lg) eqn:E; by simpl.
Qed.

(** [initialize] after [closeHandlers], in file mode. *)
Lemma initialize_after_close _logDirectory _filename lg (dir : Dir.listing) :
  logMode_ lg = File →
  ∃ lg', initialize _logDirectory _filename (closeHandlers lg) (Some dir)
         = Ok (lg', Some (Dir.open_append _filename dir))
         ∧ fileHandler_open lg' = true.
Proof.
  intros Hmode. destruct (closeHandlers_closed lg) as [Hc Hm].
  unfold initialize. rewrite Hm, Hmode. simpl. rewrite Hc.
  eexists. split; [reflexivity |].
  unfold processQueue. by destruct (work_ _).
Qed.

(** With a directory that is there, or a path that can be created, the
    function goes on in the directory; the empty path with no directory
    ends it. *)
Lemma ensure_directory_spec (path : string) (d : option Dir.listing) :
  (d = None ∧ path = ""%string
   ∧ Dir.ensure_directory path d = Throw filesystem_error)
  ∨ ((d = None → path ≠ ""%string)
     ∧ Dir.ensure_directory path d = Ok (default ∅ d)).
Proof.
  destruct d as [l |]; [by right |].
  destruct path; [by left | by right].
Qed.

(** [reopen] when the file of the day is in the directory. *)
Lemma reopen_collision today _logDirectory lg (d : Dir.listing) content :
  logMode_ lg = File →
  d !! (today +:+ ".log") = Some content →
  let N := anyFileExists d (today +:+ ".log") in
  1 ≤ N
  ∧ ∃ lg',
      reopen today _logDirectory lg (Some d)
      = Ok (lg', Some (<[today +:+ ".log" := ""%string]>
                         (<[(today +:+ ".log") +:+ "." +:+ to_string N := content]>
                            (delete (today +:+ ".log") d))))
      ∧ fileHandler_open lg' = true.
Proof.
  intros Hmode Hd N. pose proof (anyFileExists_present d _ _ Hd) as HN.
  split; [done |].
  unfold reopen. rewrite Hmode. cbn [Dir.ensure_directory rbind]. fold N.
  replace (N =? 0) with false by (symmetry; apply Z.eqb_neq; lia).
  unfold Dir.rename. rewrite Hd. simpl.
  match goal with
  | |- context [initialize ?a ?b (closeHandlers lg) (Some ?m)] =>
      destruct (initialize_after_close a b lg m Hmode) as (lg' & -> & Hopen)
  end.
  exists lg'. split; [| done]. do 3 f_equal.
  unfold Dir.open_append.
  rewrite lookup_insert_ne by apply rotated_name_differs.
  by rewrite lookup_delete_eq.
Qed.

(** [reopen] when no name of the directory contains the name of the day. *)
Lemma reopen_first today _logDirectory lg (d : option Dir.listing) :
  logMode_ lg = File →
  (d = None → _logDirectory ≠ ""%string) →
  anyFileExists (default ∅ d) (today +:+ ".log") = 0 →
  ∃ lg',
    reopen today _logDirectory lg d
    = Ok (lg', Some (<[today +:+ ".log" := ""%string]> (default ∅ d)))
    ∧ logMode_ lg' = File.
Proof.
  intros Hmode Hpath H0. unfold reopen. rewrite Hmode.
  destruct (ensure_directory_spec _logDirectory d) as [(-> & -> & _) | [_ ->]];
    [by destruct Hpath |].
  cbn [rbind]. rewrite H0. simpl.
  destruct (closeHandlers_closed lg) as [Hc Hm].
  unfold initialize. rewrite Hm, Hmode. simpl. rewrite Hc.
  eexists. split.
  - do 3 f_equal. unfold Dir.open_append.
    by rewrite (proj2 (anyFileExists_none _ _ H0)).
  - unfold processQueue. destruct (work_ _); simpl; congruence.
Qed.

Lemma anyFileExists_after_first (d : Dir.listing) name content :
  anyFileExists d name = 0 →
  anyFileExists (<[name := content]> (<[name := ""%string]> d)) name = 1.
Proof.
  intros H0. destruct (anyFileExists_none _ _ H0) as [Hf Hn].
  unfold anyFileExists. rewrite insert_insert_eq.
  rewrite map_filter_insert_True by apply contains_substring_refl.
  rewrite Hf. by rewrite insert_empty, map_size_singleton.
Qed.
End ReopenFacts.

(** C3, as the code has it.  In file mode, on a day whose date is D, when
    the file D.log itself is in the directory, [reopen] renames it to
    D.log.N, where N, at least 1, is the number of names in the directory
    that contain D.log, creates a fresh empty D.log, leaves every other
    file as it was and ends with the new file open.  In particular, from a
    directory in which no name contains D.log (one that is there, or one
    that is not and has a path to create it at), a first call creates
    D.log and a second call on the same day, whatever was written to the
    file in between, leaves D.log.1, the renamed original, and a fresh
    D.log. *)
Theorem reopen_numbers_the_file_of_the_day :
  (∀ today _logDirectory lg (d : Dir.listing) content,
     Logger.logMode_ lg = Logger.File →
     d !! (today +:+ ".log") = Some content →
     let N := Logger.anyFileExists d (today +:+ ".log") in
     1 ≤ N
     ∧ ∃ lg' d',
         Logger.reopen today _logDirectory lg (Some d) = Ok (lg', Some d')
         ∧ d' !! ((today +:+ ".log") +:+ "." +:+ to_string N) = Some content
         ∧ d' !! (today +:+ ".log") = Some ""%string
         ∧ (∀ name, name ≠ today +:+ ".log" →
                    name ≠ (today +:+ ".log") +:+ "." +:+ to_string N →
                    d' !! name = d !! name)
         ∧ Logger.fileHandler_open lg' = true)
  ∧ (∀ today _logDirectory lg (d : option Dir.listing) written,
       Logger.logMode_ lg = Logger.File →
       (d = None → _logDirectory ≠ ""%string) →
       Logger.anyFileExists (default ∅ d) (today +:+ ".log") = 0 →
       ∃ lg1 d1 lg2 d2,
         Logger.reopen today _logDirectory lg d = Ok (lg1, Some d1)
         ∧ d1 !! (today +:+ ".log") = Some ""%string
         ∧ Logger.reopen today _logDirectory lg1
             (Some (<[today +:+ ".log" := written]> d1)) = Ok (lg2, Some d2)
         ∧ d2 !! ((today +:+ ".log") +:+ ".1") = Some written
         ∧ d2 !! (today +:+ ".log") = Some ""%string
         ∧ (∀ name, name ≠ today +:+ ".log" →
                    name ≠ (today +:+ ".log") +:+ ".1" →
                    d2 !! name = default ∅ d !! name)).
Proof.
  split.
  - intros today _logDirectory lg d content Hmode Hd N.
    destruct (reopen_collision today _logDirectory lg d content Hmode Hd)
      as (HN & lg' & Hre & Hopen).
    split; [done |]. eexists lg', _. split; [exact Hre |].
    fold N. repeat split.
    + rewrite lookup_insert_ne by (apply not_eq_sym, rotated_name_differs).
      by rewrite lookup_insert_eq.
    + by rewrite lookup_insert_eq.
    + intros name H1 H2.
      rewrite !lookup_insert_ne by done. by rewrite lookup_delete_ne.
    + done.
  - intros today _logDirectory lg d written Hmode Hpath H0.
    destruct (reopen_first today _logDirectory lg d Hmode Hpath H0)
      as (lg1 & Hre1 & Hmode1).
    pose proof (anyFileExists_after_first _ _ written H0) as H1.
    destruct (reopen_collision today _logDirectory lg1
                (<[today +:+ ".log" := written]>
                   (<[today +:+ ".log" := ""%string]> (default ∅ d)))
                written Hmode1) as (_ & lg2 & Hre2 & _).
    { by rewrite lookup_insert_eq. }
    rewrite H1 in Hre2.
    change ("." +:+ to_string 1) with ".1"%string in Hre2.
    eexists lg1, _, lg2, _. split; [exact Hre1 |].
    split; [by rewrite lookup_insert_eq |].
    split; [exact Hre2 |].
    repeat split.
    + rewrite lookup_insert_ne by (apply not_eq_sym, (rotated_name_differs _ "1")).
      by rewrite lookup_insert_eq.
    + by rewrite lookup_insert_eq.
    + intros name Hn1 Hn2.
      rewrite !lookup_insert_ne by done.
      rewrite lookup_delete_ne by done.
      by rewrite !lookup_insert_ne by done.
Qed.

Lemma reopen_numbers_the_file_of_the_day_witness :
  ∃ lg1 d1 lg2 d2,
    Logger.reopen "2024-01-01" "/logs"
      (Logger.mk Logger.File Logger.Debug false "" [] false false) None
    = Ok (lg1, Some d1)
    ∧ d1 !! ("2024-01-01" +:+ ".log") = Some ""%string
    ∧ Logger.reopen "2024-01-01" "/logs" lg1
        (Some (<["2024-01-01" +:+ ".log" := "[INFO] 2024-01-01 10:00:00 - started"%string]> d1))
      = Ok (lg2, Some d2)
    ∧ d2 !! (("2024-01-01" +:+ ".log") +:+ ".1")
      = Some "[INFO] 2024-01-01 10:00:00 - started"%string
    ∧ d2 !! ("2024-01-01" +:+ ".log") = Some ""%string
    ∧ (∀ name, name ≠ "2024-01-01" +:+ ".log" →
               name ≠ ("2024-01-01" +:+ ".log") +:+ ".1" →
               d2 !! name = default ∅ (@None Dir.listing) !! name).
Proof.
  apply (proj2 reopen_numbers_the_file_of_the_day "2024-01-01"%string "/logs"%string
           (Logger.mk Logger.File Logger.Debug false "" [] false false) None
           "[INFO] 2024-01-01 10:00:00 - started"%string).
  - reflexivity.
  - done.
  - reflexivity.
Defined.

(** C3, as it is stated, fails when a name of the directory contains
    D.log while the file D.log itself is not there, here with the rotated
    file of the day alone: the count is 1, there is no file to rename,
    and [reopen] is left by the exception of [std::filesystem::rename];
    nothing is renamed and no fresh file is created. *)
Lemma reopen_without_the_file_of_the_day :
  Logger.anyFileExists {["2024-01-01.log.1"%string := "rotated"%string]}
    "2024-01-01.log" = 1
  ∧ Logger.reopen "2024-01-01" "/logs"
      (Logger.mk Logger.File Logger.Debug false "" [] false false)
      (Some {["2024-01-01.log.1"%string := "rotated"%string]})
    = Throw filesystem_error.
Proof. by vm_compute. Qed.

(** * Further properties of the code *)

(** ** Decimal texts *)

Lemma pretty_N_char_digit (x : N) :
  (x < 10)%N →
  isdigit (pretty_N_char x) = true ∧ char_code (pretty_N_char x) - 48 = Z.of_N x.
Proof.
  intros H.
  assert (x = 0 ∨ x = 1 ∨ x = 2 ∨ x = 3 ∨ x = 4 ∨ x = 5 ∨ x = 6 ∨ x = 7
          ∨ x = 8 ∨ x = 9)%N as Hx by lia.
  repeat destruct Hx as [-> | Hx]; try subst x; by vm_compute.
Qed.

Lemma pretty_N_go_append (x : N) (s : string) :
  pretty_N_go x s = pretty_N_go x "" +:+ s.
Proof.
  revert s. induction (N.lt_wf_0 x) as [x _ IH]; intros s.
  destruct (decide (x = 0%N)) as [-> | Hx]; [done |].
  assert (x `div` 10 < x)%N as Hlt by (apply N.div_lt; lia).
  rewrite !(pretty_N_go_step x) by lia.
  rewrite (IH _ Hlt (String _ s)), (IH _ Hlt (String _ "")).
  by rewrite append_assoc.
Qed.

Lemma all_digits_append (a b : string) :
  all_digits (a +:+ b) = all_digits a && all_digits b.
Proof.
  induction a as [| c a IH]; [done |].
  rewrite append_cons. simpl. by rewrite IH, andb_assoc.
Qed.

Lemma decimal_value_from_snoc (acc : Z) (a : string) (c : ascii) :
  decimal_value_from acc (a +:+ String c "")
  = 10 * decimal_value_from acc a + (char_code c - 48).
Proof.
  revert acc. induction a as [| x a IH]; intros acc; [done |].
  rewrite append_cons. simpl. by rewrite IH.
Qed.

Lemma pretty_N_go_digits (x : N) :
  all_digits (pretty_N_go x "") = true
  ∧ decimal_value (pretty_N_go x "") = Z.of_N x
  ∧ (x ≠ 0%N → pretty_N_go x "" ≠ ""%string).
Proof.
  induction (N.lt_wf_0 x) as [x _ IH].
  destruct (decide (x = 0%N)) as [-> | Hx]; [done |].
  rewrite pretty_N_go_step by lia. rewrite pretty_N_go_append.
  destruct (IH (x `div` 10)%N) as (Hd & Hv & _); [apply N.div_lt; lia |].
  destruct (pretty_N_char_digit (x `mod` 10)%N) as [Hc Hcv];
    [apply N.mod_lt; lia |].
  repeat split.
  - rewrite all_digits_append, Hd. simpl. by rewrite Hc.
  - unfold decimal_value in *. rewrite decimal_value_from_snoc, Hv, Hcv.
    rewrite (N.div_mod x 10) at 3 by lia. lia.
  - intros _. destruct (pretty_N_go (x `div` 10) ""); done.
Qed.

(** The decimal text of a number is made of digits, is not empty and
    reads back as the number. *)
Lemma pretty_N_digits (x : N) :
  all_digits (pretty x) = true ∧ decimal_value (pretty x) = Z.of_N x
  ∧ pretty x ≠ ""%string.
Proof.
  unfold pretty, pretty_N. destruct (decide (x = 0%N)) as [-> | Hx]; [done |].
  destruct (pretty_N_go_digits x) as (? & ? & ?). auto.
Qed.

Lemma to_string_digits (n : Z) :
  0 ≤ n →
  all_digits (to_string n) = true ∧ decimal_value (to_string n) = n
  ∧ to_string n ≠ ""%string.
Proof.
  intros Hn. unfold to_string.
  destruct (pretty_N_digits (Z.to_N n)) as (? & Hv & ?).
  rewrite Z2N.id in Hv by done. auto.
Qed.

(** ** File sizes, beyond the configured example *)

Lemma unit_name_parses (u : FileSize.SizeUnit) :
  FileSize.unit_of_string (FileSize.unit_name u) = Some u
  ∧ starts_with_digit (FileSize.unit_name u) = false
  ∧ (0 < String.length (FileSize.unit_name u))%nat.
Proof. destruct u; repeat split; simpl; lia. Qed.

Lemma stoi_digits (d : string) :
  all_digits d = true → d ≠ ""%string →
  stoi d = if decimal_value d <=? INT_MAX then Ok (decimal_value d)
           else Throw out_of_range.
Proof.
  intros Hd Hne. unfold stoi. rewrite (span_digits_all d Hd).
  by destruct d.
Qed.

(** X1.  The text [toString] prints for a size from 1 to [INT_MAX] in any
    unit is read back by [parseFileSize] as that size in that unit,
    without a report. *)
Theorem parseFileSize_toString (n : Z) (u : FileSize.SizeUnit) :
  0 < n ≤ INT_MAX →
  FileSize.parseFileSize (FileSize.toString (FileSize.mk n u))
  = (Some (FileSize.mk n u), []).
Proof.
  intros [Hpos Hmax]. unfold FileSize.toString, FileSize.parseFileSize. simpl.
  destruct (to_string_digits n) as (Hd & Hv & Hne); [lia |].
  destruct (unit_name_parses u) as (Hu & Hs & Hl).
  rewrite (span_digits_append _ _ Hd Hs), length_append.
  assert (0 < String.length (to_string n))%nat
    by (destruct (to_string n); simpl; [done | lia]).
  replace (0 <? String.length (to_string n))%nat with true
    by (symmetry; apply Nat.ltb_lt; lia).
  replace (String.length (to_string n) <?
           String.length (to_string n) + String.length (FileSize.unit_name u))%nat
    with true by (symmetry; apply Nat.ltb_lt; lia).
  simpl. rewrite (stoi_digits _ Hd Hne), Hv.
  replace (n <=? INT_MAX) with true by (symmetry; apply Z.leb_le; lia).
  replace (n <=? 0) with false by (symmetry; apply Z.leb_gt; lia).
  by rewrite Hu.
Qed.

Lemma parseFileSize_toString_witness :
  FileSize.parseFileSize (FileSize.toString (FileSize.mk 50 FileSize.MB))
  = (Some (FileSize.mk 50 FileSize.MB), []).
Proof. apply (parseFileSize_toString 50 FileSize.MB). by vm_compute. Defined.

Lemma decimal_value_from_nonneg (s : string) (acc : Z) :
  all_digits s = true → 0 ≤ acc → 0 ≤ decimal_value_from acc s.
Proof.
  revert acc. induction s as [| c s IH]; intros acc Hd Hacc; simpl in *; [done |].
  apply andb_prop in Hd as [Hc Hd]. apply IH; [done |].
  unfold isdigit in Hc. apply andb_prop in Hc as [H1 H2]. lia.
Qed.

(** X2.  Whatever the text, a size that [parseFileSize] accepts has a
    count from 1 to [INT_MAX], so that its size in bytes is the product
    of count and unit, without wrap-around, and is at least one byte;
    [parseFileSize] writes a report only when it rejects. *)
Theorem parseFileSize_accepts_positive_sizes (s : string) (f : FileSize.t)
    (written : list string) :
  FileSize.parseFileSize s = (Some f, written) →
  1 ≤ FileSize.size f ≤ INT_MAX
  ∧ FileSize.bsize f = FileSize.size f * FileSize.unit_value (FileSize.unit f)
  ∧ 1 ≤ FileSize.bsize f
  ∧ written = [].
Proof.
  unfold FileSize.parseFileSize.
  destruct (span_digits s) as [digits rest] eqn:Hspan.
  assert (∀ g, 1 ≤ FileSize.size g ≤ INT_MAX →
            FileSize.bsize g = FileSize.size g * FileSize.unit_value (FileSize.unit g)
            ∧ 1 ≤ FileSize.bsize g) as Hb.
  { intros g Hg. unfold FileSize.bsize, wrap64, uintmax_modulus.
    assert (1 ≤ FileSize.unit_value (FileSize.unit g) ≤ 1073741824)
      by (destruct (FileSize.unit g); simpl; lia).
    unfold INT_MAX in Hg. rewrite Z.mod_small by nia. nia. }
  destruct ((0 <? String.length digits)%nat
            && (String.length digits <? String.length s)%nat).
  - unfold stoi. destruct (span_digits digits) as [d r].
    destruct d as [| c d]; [done |].
    destruct (decimal_value (String c d) <=? INT_MAX) eqn:Hmax; [| done].
    destruct (decimal_value (String c d) <=? 0) eqn:Hz; [done |].
    destruct (FileSize.unit_of_string rest) as [u |]; [| done].
    intros [= <- <-]. simpl.
    assert (1 ≤ decimal_value (String c d) ≤ INT_MAX) as Hr by lia.
    destruct (Hb (FileSize.mk (decimal_value (String c d)) u) Hr). auto.
  - intros [= <- <-]. by vm_compute.
Qed.

Lemma parseFileSize_accepts_positive_sizes_witness :
  1 ≤ FileSize.size (FileSize.mk 100 FileSize.KiB) ≤ INT_MAX
  ∧ FileSize.bsize (FileSize.mk 100 FileSize.KiB)
    = FileSize.size (FileSize.mk 100 FileSize.KiB)
      * FileSize.unit_value (FileSize.unit (FileSize.mk 100 FileSize.KiB))
  ∧ 1 ≤ FileSize.bsize (FileSize.mk 100 FileSize.KiB)
  ∧ @nil string = [].
Proof.
  apply (parseFileSize_accepts_positive_sizes "100KiB"). reflexivity.
Defined.

(** X3.  The comparisons of [FileSize], as the operators compute them:
    [>] gives what [<] gives, [<=] and [>=] both hold exactly when the
    left size in bytes is at least the right one, and [==] holds exactly
    for the same count in the same unit, so that it tells apart sizes of
    the same number of bytes, as 1 KB and 1000 B. *)
Theorem FileSize_comparisons (a b : FileSize.t) :
  FileSize.operator_gt a b = FileSize.operator_lt a b
  ∧ (FileSize.operator_lt a b = true ↔ FileSize.bsize a < FileSize.bsize b)
  ∧ (FileSize.operator_le a b = true ↔ FileSize.bsize b ≤ FileSize.bsize a)
  ∧ (FileSize.operator_ge a b = true ↔ FileSize.bsize b ≤ FileSize.bsize a)
  ∧ (FileSize.operator_eq a b = true ↔ a = b)
  ∧ (FileSize.operator_eq (FileSize.mk 1 FileSize.KB) (FileSize.mk 1000 FileSize.B)
     = false
     ∧ FileSize.bsize (FileSize.mk 1 FileSize.KB)
       = FileSize.bsize (FileSize.mk 1000 FileSize.B)).
Proof.
  unfold FileSize.operator_le, FileSize.operator_ge, FileSize.operator_gt,
    FileSize.operator_lt, FileSize.operator_eq.
  split; [done |]. split; [apply Z.ltb_lt |].
  split; [rewrite negb_true_iff; apply Z.ltb_ge |].
  split; [rewrite negb_true_iff; apply Z.ltb_ge |].
  split; [| by vm_compute].
  destruct a as [sa ua], b as [sb ub]. simpl. split.
  - intros [H1 H2]%andb_prop. apply Z.eqb_eq in H1, H2. subst.
    by destruct ua, ub.
  - intros [= -> ->]. by rewrite !Z.eqb_refl.
Qed.

(** ** Times of day *)

(** X4.  The comparisons of [Time], as the operators compute them: [<]
    holds exactly when hour, minute and second are all three smaller, [>]
    gives what [<] gives, and [<=] and [>=] are both the negation of [<].
    So [<] is irreflexive and transitive but does not order the times of a
    day: two times with the same minute, or the same second, are never
    [<] one another and are [<=] and [>=] one another in both orders. *)
Theorem Time_comparisons (a b c : Date.Time) :
  (Date.operator_lt a b = true ↔
     Date.hour a < Date.hour b ∧ Date.minute a < Date.minute b
     ∧ Date.second a < Date.second b)
  ∧ Date.operator_gt a b = Date.operator_lt a b
  ∧ Date.operator_le a b = negb (Date.operator_lt a b)
  ∧ Date.operator_ge a b = negb (Date.operator_lt a b)
  ∧ Date.operator_lt a a = false
  ∧ (Date.operator_lt a b = true → Date.operator_lt b c = true →
     Date.operator_lt a c = true)
  ∧ (Date.minute a = Date.minute b ∨ Date.second a = Date.second b →
     Date.operator_lt a b = false ∧ Date.operator_lt b a = false
     ∧ Date.operator_le a b = true ∧ Date.operator_le b a = true
     ∧ Date.operator_ge a b = true ∧ Date.operator_ge b a = true)
  ∧ (Date.operator_eq a b = true ↔ a = b).
Proof.
  assert (∀ x y, Date.operator_lt x y = true ↔
            Date.hour x < Date.hour y ∧ Date.minute x < Date.minute y
            ∧ Date.second x < Date.second y) as Hlt.
  { intros x y. unfold Date.operator_lt. rewrite !andb_true_iff, !Z.ltb_lt. tauto. }
  assert (∀ x y, Date.minute x = Date.minute y ∨ Date.second x = Date.second y →
            Date.operator_lt x y = false) as Hno.
  { intros x y H. apply not_true_iff_false. rewrite Hlt. lia. }
  unfold Date.operator_le, Date.operator_ge, Date.operator_gt.
  split; [apply Hlt |]. split; [done |]. split; [done |]. split; [done |].
  split; [apply Hno; by left |].
  split; [rewrite !Hlt; lia |].
  split.
  - intros H. rewrite (Hno a b H), (Hno b a) by lia. done.
  - unfold Date.operator_eq. rewrite !andb_true_iff, !Z.eqb_eq. split.
    + destruct a, b. simpl. by intros [[-> ->] ->].
    + by intros ->.
Qed.

Lemma Time_comparisons_witness :
  Date.operator_lt (Date.mkTime 10 30 0) (Date.mkTime 11 30 15) = false
  ∧ Date.operator_lt (Date.mkTime 11 30 15) (Date.mkTime 10 30 0) = false
  ∧ Date.operator_le (Date.mkTime 10 30 0) (Date.mkTime 11 30 15) = true
  ∧ Date.operator_le (Date.mkTime 11 30 15) (Date.mkTime 10 30 0) = true
  ∧ Date.operator_ge (Date.mkTime 10 30 0) (Date.mkTime 11 30 15) = true
  ∧ Date.operator_ge (Date.mkTime 11 30 15) (Date.mkTime 10 30 0) = true.
Proof.
  apply (proj1 (proj2 (proj2 (proj2 (proj2 (proj2 (proj2
    (Time_comparisons (Date.mkTime 10 30 0) (Date.mkTime 11 30 15)
       (Date.mkTime 0 0 0))))))))).
  left. reflexivity.
Defined.

(** *** Check points *)

Section CheckPointFacts.
Import LoggerConfigurator.

Lemma extract_int_range s v r :
  extract_int s = Some (v, r) → INT_MIN ≤ v ≤ INT_MAX.
Proof.
  unfold extract_int.
  destruct (skip_spaces s) as [| c s']; simpl.
  - done.
  - repeat case_match; try done; intros [= <- <-]; lia.
Qed.

Lemma extract_ints_nonneg fuel s array :
  Forall (λ v, 0 ≤ v ≤ INT_MAX) array →
  Forall (λ v, 0 ≤ v ≤ INT_MAX) (extract_ints fuel s array).
Proof.
  revert s array. induction fuel as [| fuel IH]; intros s array Ha; simpl; [done |].
  destruct (extract_int s) as [[temp r] |] eqn:E; [| done].
  apply extract_int_range in E. apply IH.
  destruct (0 <=? temp) eqn:Ht; [| done].
  apply Forall_app. split; [done |]. constructor; [lia | done].
Qed.
End CheckPointFacts.

(** X5.  Every time of day that [parseCheckPoint] returns is a time of
    the clock: an hour from 0 to 23, a minute from 0 to 59, and zero
    seconds. *)
Theorem parseCheckPoint_returns_clock_times (_value : string) (t : Date.Time) :
  LoggerConfigurator.parseCheckPoint _value = Some t →
  0 ≤ Date.hour t < 24 ∧ 0 ≤ Date.minute t < 60 ∧ Date.second t = 0.
Proof.
  unfold LoggerConfigurator.parseCheckPoint.
  pose proof (extract_ints_nonneg
    (S (String.length (LoggerConfigurator.replace_colons _value)))
    (LoggerConfigurator.replace_colons _value) [] (Forall_nil_2 _)) as H.
  destruct (LoggerConfigurator.extract_ints _ _ _) as [| a0 [| a1 rest]];
    [done | done |].
  apply Forall_cons in H as [H0 H]. apply Forall_cons in H as [H1 _].
  destruct ((a0 <? 24) && (a1 <? 60)) eqn:E; [| done].
  apply andb_prop in E as [E0 E1]. intros [= <-]. simpl. lia.
Qed.

Lemma parseCheckPoint_returns_clock_times_witness :
  0 ≤ Date.hour (Date.mkTime 11 45 0) < 24
  ∧ 0 ≤ Date.minute (Date.mkTime 11 45 0) < 60
  ∧ Date.second (Date.mkTime 11 45 0) = 0.
Proof.
  apply (parseCheckPoint_returns_clock_times "11:45"). reflexivity.
Defined.

(** *** The text of a time *)

Lemma digit_cases (c : ascii) :
  isdigit c = true →
  In c ["0"; "1"; "2"; "3"; "4"; "5"; "6"; "7"; "8"; "9"]%char.
Proof.
  destruct c as [[] [] [] [] [] [] [] []]; vm_compute; intros H;
    first [discriminate | tauto].
Qed.

Lemma two_digits (v : Z) :
  0 ≤ v ≤ 99 →
  ∃ c1 c2, Date.addTrailingZero v = String c1 (String c2 "")
           ∧ isdigit c1 = true ∧ isdigit c2 = true
           ∧ 10 * (char_code c1 - 48) + (char_code c2 - 48) = v.
Proof.
  intros Hv. unfold Date.addTrailingZero, to_string_int.
  destruct (decide (v ≤ 9)) as [H9 | H9].
  - replace ((0 <=? v) && (v <=? 9)) with true
      by (symmetry; apply andb_true_intro; lia).
    assert (v = 0 ∨ v = 1 ∨ v = 2 ∨ v = 3 ∨ v = 4 ∨ v = 5 ∨ v = 6 ∨ v = 7
            ∨ v = 8 ∨ v = 9) as Hc by lia.
    repeat destruct Hc as [-> | Hc]; try subst v; by eexists _, _.
  - replace ((0 <=? v) && (v <=? 9)) with false
      by (symmetry; apply andb_false_iff; right; apply Z.leb_gt; lia).
    destruct v as [| p |]; [lia | | lia].
    change (pretty (Z.pos p)) with (pretty (N.pos p)).
    unfold pretty, pretty_N. destruct (decide (N.pos p = 0%N)); [done |].
    rewrite pretty_N_go_step by lia.
    rewrite pretty_N_go_step by (apply N.div_str_pos; lia).
    assert ((N.pos p `div` 10) `div` 10 = 0)%N as ->.
    { apply N.div_small. apply N.Div0.div_lt_upper_bound. lia. }
    rewrite pretty_N_go_0.
    destruct (pretty_N_char_digit ((N.pos p `div` 10) `mod` 10)%N) as [H1 H1v];
      [apply N.mod_lt; lia |].
    destruct (pretty_N_char_digit (N.pos p `mod` 10)%N) as [H2 H2v];
      [apply N.mod_lt; lia |].
    eexists _, _. split; [done |]. split; [done |]. split; [done |].
    rewrite H1v, H2v.
    assert (N.pos p `div` 10 < 10)%N by (apply N.Div0.div_lt_upper_bound; lia).
    rewrite (N.mod_small (N.pos p `div` 10) 10) by done.
    pose proof (N.div_mod (N.pos p) 10). lia.
Qed.

Section TimeTextFacts.
Import LoggerConfigurator.

Lemma digit_is_plain (c : ascii) (s : string) :
  isdigit c = true →
  skip_spaces (String c s) = String c s
  ∧ (if Ascii.eqb c ":" then " "%char else c) = c
  ∧ ∀ (A : Type) (x y z : string → A),
      match String c s with
      | String "-" r => x r
      | String "+" r => y r
      | _ => z (String c s)
      end = z (String c s).
Proof.
  intros H. apply digit_cases in H. simpl in H.
  repeat destruct H as [<- | H]; try done.
Qed.

(** The extraction of a two-digit number, at the front of the text or
    after one blank. *)
Lemma extract_int_two_digits (c1 c2 : ascii) (rest : string) :
  isdigit c1 = true → isdigit c2 = true → starts_with_digit rest = false →
  extract_int (String c1 (String c2 rest))
  = Some (10 * (char_code c1 - 48) + (char_code c2 - 48), rest)
  ∧ extract_int (String " " (String c1 (String c2 rest)))
    = Some (10 * (char_code c1 - 48) + (char_code c2 - 48), rest).
Proof.
  intros H1 H2 Hr.
  pose proof (span_digits_append (String c1 (String c2 "")) rest) as Hs.
  rewrite !append_cons, append_nil_l in Hs.
  specialize (Hs ltac:(by simpl; rewrite H1, H2) Hr).
  assert (0 ≤ char_code c2 - 48 ≤ 9) as Hc2.
  { unfold isdigit in H2. apply andb_prop in H2 as [? ?]. lia. }
  apply digit_cases in H1. simpl in H1.
  repeat destruct H1 as [<- | H1]; try done.
  all: unfold extract_int;
    repeat (cbn [skip_spaces];
            match goal with
            | |- context [isspace ?c] =>
                let b := eval vm_compute in (isspace c) in
                change (isspace c) with b; cbv iota
            end);
    rewrite Hs;
    unfold decimal_value; cbn [decimal_value_from];
    match goal with
    | |- context [if ?b then _ else _] =>
        replace b with true
          by (symmetry; apply andb_true_intro; unfold INT_MIN, INT_MAX;
              change (char_code "0") with 48; change (char_code "1") with 49;
              change (char_code "2") with 50; change (char_code "3") with 51;
              change (char_code "4") with 52; change (char_code "5") with 53;
              change (char_code "6") with 54; change (char_code "7") with 55;
              change (char_code "8") with 56; change (char_code "9") with 57;
              lia)
    end;
    split; do 2 f_equal; lia.
Qed.
End TimeTextFacts.

(** X6.  The text [toString] prints for a time of the clock has the
    shape HH:MM:SS, eight characters, and [parseCheckPoint] reads it back
    as that hour and minute with zero seconds. *)
Theorem parseCheckPoint_toString (t : Date.Time) :
  0 ≤ Date.hour t ≤ 23 → 0 ≤ Date.minute t ≤ 59 → 0 ≤ Date.second t ≤ 60 →
  String.length (Date.toString t) = 8%nat
  ∧ String.get 2 (Date.toString t) = Some ":"%char
  ∧ String.get 5 (Date.toString t) = Some ":"%char
  ∧ LoggerConfigurator.parseCheckPoint (Date.toString t)
    = Some (Date.mkTime (Date.hour t) (Date.minute t) 0).
Proof.
  destruct t as [h m s]. simpl. intros Hh Hm Hs. unfold Date.toString. simpl.
  destruct (two_digits h) as (h1 & h2 & -> & Hh1 & Hh2 & Hhv); [lia |].
  destruct (two_digits m) as (m1 & m2 & -> & Hm1 & Hm2 & Hmv); [lia |].
  destruct (two_digits s) as (s1 & s2 & -> & Hs1 & Hs2 & Hsv); [lia |].
  rewrite !append_cons, !append_nil_l.
  split; [done |]. split; [done |]. split; [done |].
  unfold LoggerConfigurator.parseCheckPoint. cbn [LoggerConfigurator.replace_colons].
  rewrite !(proj1 (proj2 (digit_is_plain _ ""%string Hh1))),
    !(proj1 (proj2 (digit_is_plain _ ""%string Hh2))),
    !(proj1 (proj2 (digit_is_plain _ ""%string Hm1))),
    !(proj1 (proj2 (digit_is_plain _ ""%string Hm2))),
    !(proj1 (proj2 (digit_is_plain _ ""%string Hs1))),
    !(proj1 (proj2 (digit_is_plain _ ""%string Hs2))).
  change (Ascii.eqb ":" ":") with true. cbn iota.
  cbn [String.length LoggerConfigurator.extract_ints].
  rewrite (proj1 (extract_int_two_digits h1 h2
    (String " " (String m1 (String m2 (String " " (String s1 (String s2 ""))))))
    Hh1 Hh2 eq_refl)).
  rewrite Hhv.
  replace (0 <=? h) with true by (symmetry; apply Z.leb_le; lia).
  rewrite (proj2 (extract_int_two_digits m1 m2
    (String " " (String s1 (String s2 ""))) Hm1 Hm2 eq_refl)).
  rewrite Hmv.
  replace (0 <=? m) with true by (symmetry; apply Z.leb_le; lia).
  rewrite (proj2 (extract_int_two_digits s1 s2 "" Hs1 Hs2 eq_refl)).
  rewrite Hsv.
  replace (0 <=? s) with true by (symmetry; apply Z.leb_le; lia).
  change (LoggerConfigurator.extract_int "") with (@None (Z * string)).
  cbn [app].
  replace ((h <? 24) && (m <? 60)) with true; [done |].
  symmetry. apply andb_true_intro. lia.
Qed.

Lemma parseCheckPoint_toString_witness :
  String.length (Date.toString (Date.mkTime 7 5 9)) = 8%nat
  ∧ String.get 2 (Date.toString (Date.mkTime 7 5 9)) = Some ":"%char
  ∧ String.get 5 (Date.toString (Date.mkTime 7 5 9)) = Some ":"%char
  ∧ LoggerConfigurator.parseCheckPoint (Date.toString (Date.mkTime 7 5 9))
    = Some (Date.mkTime 7 5 0).
Proof.
  apply (parseCheckPoint_toString (Date.mkTime 7 5 9)); simpl; lia.
Defined.

(** ** From the calls to the sink *)

Section PipelineFacts.
Import Logger.

Lemma submit_effect e timestamp _args lg :
  submit e timestamp _args lg
  = if passes (logLevel_ lg) e
    then set_queue (messageQueue_ lg ++ [line_of (e, timestamp, _args)]) lg
    else lg.
Proof.
  destruct e; simpl; unfold debug, info, warn, error, fatal, log, line_of;
    simpl; try done; by destruct (level_le _ _).
Qed.

Lemma set_queue_fields q lg :
  messageQueue_ (set_queue q lg) = q
  ∧ logLevel_ (set_queue q lg) = logLevel_ lg
  ∧ set_queue q (set_queue (messageQueue_ lg) lg) = set_queue q lg.
Proof. by destruct lg. Qed.

Lemma submit_all_effect calls lg :
  submit_all calls lg
  = set_queue (messageQueue_ lg
               ++ map line_of (List.filter (λ call, passes (logLevel_ lg) call.1.1) calls))
      lg.
Proof.
  revert lg. induction calls as [| [[e timestamp] _args] calls IH]; intros lg.
  - simpl. rewrite app_nil_r. by destruct lg.
  - cbn [submit_all List.filter]. rewrite IH, submit_effect. simpl.
    destruct (passes (logLevel_ lg) e); simpl.
    + rewrite <- app_assoc. by destruct lg.
    + done.
Qed.

Lemma drain_running n lg sink :
  wait_ lg = false →
  drain n (lg, sink)
  = (set_queue (drop n (messageQueue_ lg)) lg, sink ++ take n (messageQueue_ lg)).
Proof.
  revert lg sink. induction n as [| n IH]; intros lg sink Hw.
  - simpl. rewrite app_nil_r. by destruct lg.
  - cbn [drain].
    assert (drain_turn (lg, sink)
            = match messageQueue_ lg with
              | [] => (lg, sink)
              | line :: q => (set_queue q lg, sink ++ [line])
              end) as ->.
    { unfold drain_turn. rewrite Hw. by destruct (messageQueue_ lg). }
    destruct (messageQueue_ lg) as [| line q] eqn:Hq.
    + rewrite IH, Hq by done. by destruct n.
    + rewrite IH by (by destruct lg). simpl. rewrite <- app_assoc.
      by destruct lg.
Qed.

Lemma drain_paused n lg sink :
  wait_ lg = true → drain n (lg, sink) = (lg, sink).
Proof.
  intros Hw. induction n as [| n IH]; [done |].
  cbn [drain drain_turn]. by rewrite Hw, andb_false_r.
Qed.
End PipelineFacts.

(** X7.  A sequence of calls of the entry points leaves on the queue,
    behind what was there, the lines of the calls that get past the
    level, one line per call and in the order of the calls, and changes
    nothing else of the logger; the calls of the helpers below the level
    leave no trace. *)
Theorem calls_queue_their_lines_in_order
    (calls : list (Logger.entry_point * string * list string)) (lg : Logger.t) :
  Logger.messageQueue_ (Logger.submit_all calls lg)
  = Logger.messageQueue_ lg
    ++ map line_of (List.filter (λ call, passes (Logger.logLevel_ lg) call.1.1) calls)
  ∧ Logger.submit_all calls lg
    = Logger.set_queue (Logger.messageQueue_ (Logger.submit_all calls lg)) lg.
Proof.
  rewrite submit_all_effect.
  destruct (set_queue_fields
    (Logger.messageQueue_ lg
     ++ map line_of (List.filter (λ call, passes (Logger.logLevel_ lg) call.1.1) calls))
    lg) as (-> & _ & _).
  done.
Qed.

(** X8.  While the logger is not paused, [n] turns of the drain thread
    move the first [n] lines of the queue to the sink, in their order,
    and leave the others queued; while it is paused ([wait_] set) they
    write nothing and remove nothing.  So for a logger with an empty
    queue, as many turns as there were calls write to the sink exactly
    the lines of the calls that got past the level, in the order of the
    calls, and empty the queue. *)
Theorem drain_writes_queue_in_order (n : nat) (lg : Logger.t) (sink : list string)
    (calls : list (Logger.entry_point * string * list string)) :
  (Logger.wait_ lg = false →
     Logger.drain n (lg, sink)
     = (Logger.set_queue (drop n (Logger.messageQueue_ lg)) lg,
        sink ++ take n (Logger.messageQueue_ lg)))
  ∧ (Logger.wait_ lg = true → Logger.drain n (lg, sink) = (lg, sink))
  ∧ (Logger.wait_ lg = false → Logger.messageQueue_ lg = [] →
     Logger.drain (List.length calls) (Logger.submit_all calls lg, sink)
     = (lg, sink ++ map line_of
                      (List.filter (λ call, passes (Logger.logLevel_ lg) call.1.1) calls))).
Proof.
  split; [apply drain_running |]. split; [apply drain_paused |].
  intros Hw Hq. rewrite submit_all_effect, Hq. simpl.
  set (lines := map line_of _).
  rewrite drain_running by (by destruct lg).
  assert (List.length lines ≤ List.length calls)%nat as Hlen.
  { unfold lines. rewrite length_map. apply filter_length_le. }
  destruct (set_queue_fields lines lg) as (-> & _ & _).
  rewrite drop_ge, take_ge by done.
  f_equal. destruct lg; simpl in *; by subst.
Qed.

Lemma drain_writes_queue_in_order_witness :
  Logger.drain 3
    (Logger.submit_all
       [(Logger.ViaInfo, "2024-01-01 10:00:00", ["a"]);
        (Logger.ViaDebug, "2024-01-01 10:00:01", ["b"]);
        (Logger.ViaError, "2024-01-01 10:00:02", ["c"; "d"])]%string
       (Logger.mk Logger.Console Logger.Info false "" [] true false), [])
  = (Logger.mk Logger.Console Logger.Info false "" [] true false,
     [] ++ map line_of
       (List.filter (λ call, passes Logger.Info call.1.1)
          [(Logger.ViaInfo, "2024-01-01 10:00:00", ["a"]);
           (Logger.ViaDebug, "2024-01-01 10:00:01", ["b"]);
           (Logger.ViaError, "2024-01-01 10:00:02", ["c"; "d"])]%string)).
Proof.
  apply (proj2 (proj2 (drain_writes_queue_in_order 0
    (Logger.mk Logger.Console Logger.Info false "" [] true false) []
    [(Logger.ViaInfo, "2024-01-01 10:00:00", ["a"]);
     (Logger.ViaDebug, "2024-01-01 10:00:01", ["b"]);
     (Logger.ViaError, "2024-01-01 10:00:02", ["c"; "d"])]%string)));
    reflexivity.
Defined.

(** ** The life of the file handler *)

Section HandlerFacts.
Import Logger.







End HandlerFacts.



(** ** Rotation, call after call *)



Section NumberingFacts.
Import Logger.

Lemma prefix_append (a b : string) : String.prefix a (a +:+ b) = true.
Proof.
  induction a as [| c a IH]; [by destruct b |].
  rewrite append_cons. simpl. by destruct (ascii_dec c c).
Qed.

Lemma contains_substring_append (a b : string) :
  contains_substring a (a +:+ b) = true.
Proof.
  destruct (a +:+ b) eqn:E; cbn [contains_substring]; rewrite <- E;
    by rewrite prefix_append.
Qed.

Lemma initialize_keeps_mode a b lg d lg' d' :
  initialize a b lg d = Ok (lg', d') → logMode_ lg' = logMode_ lg.
Proof.
  unfold initialize. destruct (logMode_ lg) eqn:E; [by intros [= <- <-] |].
  destruct (Dir.ensure_directory a d) as [l | x]; [| done]. cbn [rbind].
  destruct (fileHandler_open (set_wait true lg)); intros [= <- <-]; simpl; [done |].
  unfold processQueue. simpl. by destruct (work_ lg).
Qed.

Lemma reopen_keeps_mode today dir lg d lg' d' :
  reopen today dir lg d = Ok (lg', d') → logMode_ lg' = logMode_ lg.
Proof.
  unfold reopen. destruct (logMode_ lg) eqn:E; [by intros [= <- <-] |].
  destruct (closeHandlers_closed lg) as [_ Hm].
  destruct (Dir.ensure_directory dir d) as [l0 | x0]; [| done]. cbn [rbind].
  match goal with
  | |- rbind ?r _ = _ → _ => destruct r as [[a l] | x]; [| done]
  end.
  cbn [rbind]. intros H. apply initialize_keeps_mode in H. congruence.
Qed.

Lemma to_string_inj (i j : Z) : 0 ≤ i → 0 ≤ j → to_string i = to_string j → i = j.
Proof.
  unfold to_string. intros Hi Hj H. apply (inj pretty) in H. lia.
Qed.

Lemma rotated_name_inj today (i j : Z) :
  0 ≤ i → 0 ≤ j → rotated_name today i = rotated_name today j → i = j.
Proof.
  unfold rotated_name. intros Hi Hj H.
  apply (inj (String.app _)) in H. apply (inj (String.app _)) in H.
  by apply to_string_inj.
Qed.
End NumberingFacts.

(** X11.  Rotation numbers without a gap and without overwriting.  When
    the file of the day is in the directory, N names contain its name and
    no rotated file numbered N or more is there, a call of [reopen] in
    file mode returns, moves the file of the day to the rotated name
    numbered N, starts an empty file of the day and keeps every other
    file with its contents; afterwards N + 1 names contain the name of
    the day and no rotated file numbered N + 1 or more is there, so the
    next call is in the same situation. *)
Theorem reopen_numbers_without_overwriting today _logDirectory lg
    (d : Dir.listing) content :
  Logger.logMode_ lg = Logger.File →
  d !! (today +:+ ".log") = Some content →
  (∀ i, Logger.anyFileExists d (today +:+ ".log") ≤ i →
        d !! rotated_name today i = None) →
  ∃ lg' d',
    Logger.reopen today _logDirectory lg (Some d) = Ok (lg', Some d')
    ∧ Logger.logMode_ lg' = Logger.File
    ∧ d' !! rotated_name today (Logger.anyFileExists d (today +:+ ".log"))
      = Some content
    ∧ d' !! (today +:+ ".log") = Some ""%string
    ∧ (∀ name kept, name ≠ today +:+ ".log" → d !! name = Some kept →
                    d' !! name = Some kept)
    ∧ Logger.anyFileExists d' (today +:+ ".log")
      = Logger.anyFileExists d (today +:+ ".log") + 1
    ∧ (∀ i, Logger.anyFileExists d' (today +:+ ".log") ≤ i →
            d' !! rotated_name today i = None).
Proof.
  intros Hmode Hd Hfree.
  destruct (reopen_collision today _logDirectory lg d content Hmode Hd)
    as (HN & lg' & Hre & Hopen).
  set (N := Logger.anyFileExists d (today +:+ ".log")) in *.
  set (D := today +:+ ".log") in *.
  assert (rotated_name today N ≠ D) as Hne by apply rotated_name_differs.
  assert (d !! rotated_name today N = None) as HfreeN by (apply Hfree; lia).
  eexists lg', _. split; [exact Hre |].
  fold (rotated_name today N).
  assert (Logger.anyFileExists
            (<[D := ""%string]> (<[rotated_name today N := content]> (delete D d))) D
          = N + 1) as Hcount.
  { unfold Logger.anyFileExists.
    rewrite map_filter_insert_True by apply contains_substring_refl.
    rewrite map_filter_insert_True by apply contains_substring_append.
    rewrite map_filter_delete.
    set (F := filter _ d).
    assert (F !! D = Some content) as HF.
    { apply map_lookup_filter_Some. split; [done |]. apply contains_substring_refl. }
    assert (F !! rotated_name today N = None) as HFN.
    { apply map_lookup_filter_None. by left. }
    rewrite map_size_insert_None.
    2: { rewrite lookup_insert_ne by done. apply lookup_delete_eq. }
    rewrite map_size_insert_None.
    2: { rewrite lookup_delete_ne by done. done. }
    rewrite map_size_delete_Some by done.
    unfold N, Logger.anyFileExists. fold F.
    assert (size F ≠ 0%nat).
    { intros E. apply map_size_empty_iff in E. by rewrite E in HF. }
    lia. }
  split.
  { by rewrite (reopen_keeps_mode _ _ _ _ _ _ Hre). }
  split; [| split; [| split; [| split]]].
  - rewrite lookup_insert_ne by done. apply lookup_insert_eq.
  - apply lookup_insert_eq.
  - intros name kept Hname Hk.
    rewrite lookup_insert_ne by done.
    destruct (decide (name = rotated_name today N)) as [-> | Hn].
    + by rewrite HfreeN in Hk.
    + rewrite lookup_insert_ne by done. by rewrite lookup_delete_ne.
  - exact Hcount.
  - intros i Hi.
    assert (N + 1 ≤ i) as Hi' by (rewrite <- Hcount; exact Hi). clear Hi.
    change (D +:+ "." +:+ to_string N) with (rotated_name today N).
    rewrite lookup_insert_ne by (apply not_eq_sym, rotated_name_differs).
    rewrite lookup_insert_ne.
    2: { intros E. apply rotated_name_inj in E; lia. }
    rewrite lookup_delete_ne by (apply not_eq_sym, rotated_name_differs).
    apply Hfree. lia.
Qed.

Lemma reopen_numbers_without_overwriting_witness :
  ∃ lg' d',
    Logger.reopen "2024-01-01" "/logs"
      (Logger.mk Logger.File Logger.Debug false "" [] false false)
      (Some {["2024-01-01.log"%string := "first lines"%string]})
    = Ok (lg', Some d')
    ∧ Logger.logMode_ lg' = Logger.File
    ∧ d' !! rotated_name "2024-01-01"
              (Logger.anyFileExists {["2024-01-01.log"%string := "first lines"%string]}
                 ("2024-01-01" +:+ ".log"))
      = Some "first lines"%string
    ∧ d' !! ("2024-01-01" +:+ ".log") = Some ""%string
    ∧ (∀ name kept, name ≠ "2024-01-01" +:+ ".log" →
         ({["2024-01-01.log"%string := "first lines"%string]} : Dir.listing) !! name
         = Some kept →
         d' !! name = Some kept)
    ∧ Logger.anyFileExists d' ("2024-01-01" +:+ ".log")
      = Logger.anyFileExists {["2024-01-01.log"%string := "first lines"%string]}
          ("2024-01-01" +:+ ".log") + 1
    ∧ (∀ i, Logger.anyFileExists d' ("2024-01-01" +:+ ".log") ≤ i →
            d' !! rotated_name "2024-01-01" i = None).
Proof.
  apply (reopen_numbers_without_overwriting "2024-01-01" "/logs"
           (Logger.mk Logger.File Logger.Debug false "" [] false false)
           {["2024-01-01.log"%string := "first lines"%string]}
           "first lines"%string).
  - reflexivity.
  - reflexivity.
  - intros i _. apply lookup_singleton_ne.
    apply not_eq_sym, (rotated_name_differs ("2024-01-01" +:+ ".log")).
Defined.

(** ** Ages, levels and modes *)

Lemma duration_unit_cases (u : string) :
  duration_unit_known u = true →
  u ∈ ["S"; "M"; "H"; "d"; "w"; "m"; "y"]%string.
Proof.
  unfold duration_unit_known. intros H.
  apply existsb_exists in H as (x & Hin & Heq).
  apply String.eqb_eq in Heq as <-. by apply list_elem_of_In.
Qed.

Lemma match_duration_digits_unit (d u : string) :
  all_digits d = true → duration_unit_known u = true →
  LoggerConfigurator.match_duration (d +:+ u) = Some (d, u).
Proof.
  intros Hd Hu. apply duration_unit_cases in Hu.
  unfold LoggerConfigurator.match_duration.
  assert (starts_with_digit u = false) as Hs.
  { repeat (apply elem_of_cons in Hu as [-> | Hu]; [done |]).
    by apply elem_of_nil in Hu. }
  rewrite (span_digits_append d u Hd Hs).
  repeat (apply elem_of_cons in Hu as [-> | Hu]; [done |]).
  by apply elem_of_nil in Hu.
Qed.

Lemma stoull_digits (d : string) :
  all_digits d = true → d ≠ ""%string →
  stoull d = if decimal_value d <=? ULLONG_MAX then Ok (decimal_value d)
             else Throw out_of_range.
Proof.
  intros H Hne. unfold stoull. rewrite (span_digits_all d H). by destruct d.
Qed.

(** X12.  A value of [RemoveLogsOlderThan] that is a number followed by
    one of the unit letters is the number times the milliseconds of the
    unit, the constants of [Timer::TimeToMilliseconds]: the product is
    exact up to 584,542,046 units of any kind, it is reduced modulo 2^64
    beyond that, and a number above the largest [unsigned long long] is
    an exception [std::out_of_range]. *)
Theorem parseRemoveLogsOlderThan_number_and_unit (d u : string) :
  all_digits d = true → d ≠ ""%string → duration_unit_known u = true →
  1000 ≤ duration_unit_milliseconds u ≤ 31556952000
  ∧ LoggerConfigurator.parseRemoveLogsOlderThan (d +:+ u)
    = (if decimal_value d <=? ULLONG_MAX
       then Ok (wrap64 (decimal_value d * duration_unit_milliseconds u))
       else Throw out_of_range)
  ∧ (decimal_value d ≤ 584542046 →
     LoggerConfigurator.parseRemoveLogsOlderThan (d +:+ u)
     = Ok (decimal_value d * duration_unit_milliseconds u)).
Proof.
  intros Hd Hne Hu.
  assert (1000 ≤ duration_unit_milliseconds u ≤ 31556952000
          ∧ LoggerConfigurator.parseRemoveLogsOlderThan (d +:+ u)
            = (if decimal_value d <=? ULLONG_MAX
               then Ok (wrap64 (decimal_value d * duration_unit_milliseconds u))
               else Throw out_of_range)) as [Hms Hp].
  { unfold LoggerConfigurator.parseRemoveLogsOlderThan.
    rewrite (match_duration_digits_unit d u Hd Hu), (stoull_digits d Hd Hne).
    apply duration_unit_cases in Hu.
    repeat (apply elem_of_cons in Hu as [-> | Hu];
            [split; [by vm_compute |];
             by destruct (decimal_value d <=? ULLONG_MAX) |]).
    by apply elem_of_nil in Hu. }
  split; [done |]. split; [done |].
  intros Hsmall. rewrite Hp.
  pose proof (decimal_value_from_nonneg d 0 Hd ltac:(lia)) as Hpos.
  fold (decimal_value d) in Hpos.
  replace (decimal_value d <=? ULLONG_MAX) with true
    by (symmetry; apply Z.leb_le; unfold ULLONG_MAX; lia).
  f_equal. unfold wrap64. apply Z.mod_small.
  assert (decimal_value d * duration_unit_milliseconds u
          ≤ 584542046 * 31556952000) by (apply Z.mul_le_mono_nonneg; lia).
  split; [apply Z.mul_nonneg_nonneg; lia |].
  unfold uintmax_modulus. lia.
Qed.

Lemma parseRemoveLogsOlderThan_number_and_unit_witness :
  1000 ≤ duration_unit_milliseconds "w" ≤ 31556952000
  ∧ LoggerConfigurator.parseRemoveLogsOlderThan ("3" +:+ "w")
    = (if decimal_value "3" <=? ULLONG_MAX
       then Ok (wrap64 (decimal_value "3" * duration_unit_milliseconds "w"))
       else Throw out_of_range)
  ∧ (decimal_value "3" ≤ 584542046 →
     LoggerConfigurator.parseRemoveLogsOlderThan ("3" +:+ "w")
     = Ok (decimal_value "3" * duration_unit_milliseconds "w")).
Proof.
  apply (parseRemoveLogsOlderThan_number_and_unit "3" "w"); [reflexivity | done | reflexivity].
Defined.

(** X13.  [parseLogLevel] and [parseLogMode] accept exactly the names of
    the five levels and of the two modes, whatever the case of their
    letters: a text is read as a level exactly when its lower-cased
    letters are those of the name [logTypeAsString] gives the level, so
    that name parses back to the level; a text is read as a mode exactly
    when its lower-cased letters are the mode's name. *)
Theorem level_and_mode_names (_value : string) :
  (∀ l, LoggerConfigurator.parseLogLevel _value = Some l
        ↔ transform_tolower _value = transform_tolower (Logger.logTypeAsString l))
  ∧ (∀ l, LoggerConfigurator.parseLogLevel (Logger.logTypeAsString l) = Some l)
  ∧ (∀ m, LoggerConfigurator.parseLogMode _value = Some m
          ↔ transform_tolower _value = mode_name m).
Proof.
  split; [| split].
  - intros l. unfold LoggerConfigurator.parseLogLevel. split.
    + intros H. repeat case_match; try done;
        match goal with E : String.eqb _ _ = true |- _ =>
          apply String.eqb_eq in E; rewrite E end;
        by injection H as <-.
    + intros ->. by destruct l.
  - intros l. by destruct l.
  - intros m. unfold LoggerConfigurator.parseLogMode. split.
    + intros H. repeat case_match; try done;
        match goal with E : String.eqb _ _ = true |- _ =>
          apply String.eqb_eq in E; rewrite E end;
        by injection H as <-.
    + intros ->. by destruct m.
Qed.

(** ** Reading the file *)

Section ReadFacts.
Import EMap.

Lemma isNumber_digits (value : string) :
  isNumber value = true → all_digits value = true ∧ value ≠ ""%string.
Proof. destruct value; [done |]. intros H. by split. Qed.

Lemma stoi_number (value : string) :
  isNumber value = true →
  stoi value = if too_large value then Throw out_of_range
               else Ok (decimal_value value).
Proof.
  intros H. unfold too_large. rewrite H. simpl.
  apply isNumber_digits in H as [Hd Hne].
  unfold stoi. rewrite (span_digits_all value Hd).
  destruct value; [done |].
  rewrite Z.ltb_antisym. by destruct (_ <=? INT_MAX).
Qed.

Lemma toBool_name (value : string) :
  isBool value = true →
  toBool value = Ok (String.eqb (transform_tolower value) "true").
Proof.
  unfold isBool, toBool. intros H.
  destruct (String.eqb (transform_tolower value) "true"); [done |].
  simpl in H. by rewrite H.
Qed.

Lemma read_loop_spec (tokens : list (string * string)) (m0 : t) :
  if existsb too_large (map snd tokens)
  then read_loop tokens m0 = Throw out_of_range
  else ∃ m, read_loop tokens m0 = Ok m
            ∧ ∀ key, m !! key = match last_value key tokens with
                                | Some v => Some (classify v)
                                | None => m0 !! key
                                end.
Proof.
  revert m0. induction tokens as [| [k v] rest IH]; intros m0; simpl.
  - by exists m0.
  - assert (∀ c, c = classify v → too_large v = false →
              if existsb too_large (map snd rest)
              then read_loop rest (add k c m0) = Throw out_of_range
              else ∃ m, read_loop rest (add k c m0) = Ok m
                        ∧ ∀ key, m !! key
                                 = match match last_value key rest with
                                         | Some v' => Some v'
                                         | None => if String.eqb k key then Some v else None
                                         end with
                                   | Some v0 => Some (classify v0)
                                   | None => m0 !! key
                                   end) as Hstep.
    { intros c -> _. specialize (IH (add k (classify v) m0)).
      destruct (existsb too_large (map snd rest)); [done |].
      destruct IH as (m & Hm & Hl). exists m. split; [done |].
      intros key. rewrite Hl. destruct (last_value key rest); [done |].
      unfold add. destruct (String.eqb_spec k key) as [-> | Hne].
      - by rewrite lookup_insert_eq.
      - by rewrite lookup_insert_ne. }
    destruct (isNumber v) eqn:En.
    + rewrite (stoi_number v En). destruct (too_large v) eqn:Et; simpl; [done |].
      apply Hstep; [| done]. unfold classify. by rewrite En.
    + assert (too_large v = false) as Et by (unfold too_large; by rewrite En).
      rewrite Et. simpl. destruct (isBool v) eqn:Eb.
      * rewrite (toBool_name v Eb). simpl.
        apply Hstep; [| done]. unfold classify. by rewrite En, Eb.
      * apply Hstep; [| done]. unfold classify. by rewrite En, Eb.
Qed.
End ReadFacts.

(** X14.  [EMap::read] is left by [std::out_of_range] exactly when some
    value token is made of digits and does not fit an [int]; no other
    exception leaves it.  Otherwise it returns true and a map in which
    every key holds the last value the file gives it, stored as a number
    when the token is made of digits, as a boolean when it is [true] or
    [false] in any case, and as its text otherwise; a key the file does
    not have is not in the map. *)
Theorem read_stores_last_values (tokens : list (string * string)) :
  (existsb too_large (map snd tokens) = true
   ∧ EMap.read tokens = Throw out_of_range)
  ∨ (existsb too_large (map snd tokens) = false
     ∧ ∃ m : EMap.t, EMap.read tokens = Ok (true, m)
         ∧ ∀ key, m !! key = classify <$> last_value key tokens).
Proof.
  pose proof (read_loop_spec tokens ∅) as H. unfold EMap.read.
  destruct (existsb too_large (map snd tokens)).
  - left. by rewrite H.
  - right. split; [done |]. destruct H as (m & -> & Hl). exists m.
    split; [done |]. intros key. rewrite Hl.
    destruct (last_value key tokens); [done |]. by rewrite lookup_empty.
Qed.

(** ** The keys of the configuration file *)

Section KeyFacts.
Import LoggerConfigurator.

Lemma contains_lookup (m : EMap.t) (key : string) :
  contains m key = Some (match m !! key with Some v => v | None => AnyNullopt end).
Proof.
  unfold contains, EMap.containsKey, EMap.get. by destruct (m !! key).
Qed.

Lemma contains_not_string (m : EMap.t) (key : string) :
  holds_string m key = false →
  has_value (contains m key) = true
  ∧ any_cast_string (contains m key) = Throw bad_any_cast.
Proof.
  unfold holds_string. rewrite contains_lookup.
  by destruct (m !! key) as [[] |].
Qed.

Lemma contains_not_bool (m : EMap.t) (key : string) :
  holds_bool m key = false →
  has_value (contains m key) = true
  ∧ any_cast_bool (contains m key) = Throw bad_any_cast.
Proof.
  unfold holds_bool. rewrite contains_lookup.
  by destruct (m !! key) as [[] |].
Qed.

Lemma contains_string_inv (m : EMap.t) (key v : string) :
  contains m key = Some (AnyString v) → m !! key = Some (AnyString v).
Proof.
  rewrite contains_lookup. destruct (m !! key); [| done]. by intros [= ->].
Qed.

Lemma string_blocks_need_texts (m : EMap.t) :
  (holds_string m "LogDirectoryPath" = false →
   ∀ st, load_LogDirectoryPath m st = (Throw bad_any_cast, st))
  ∧ (holds_string m "MaxLogFileSize" = false →
     ∀ st, load_MaxLogFileSize m st = (Throw bad_any_cast, st))
  ∧ (holds_string m "RemoveLogsOlderThan" = false →
     ∀ st, load_RemoveLogsOlderThan m st = (Throw bad_any_cast, st))
  ∧ (holds_string m "LogLevel" = false →
     ∀ st, load_LogLevel m st = (Throw bad_any_cast, st))
  ∧ (holds_string m "LogMode" = false →
     ∀ st, load_LogMode m st = (Throw bad_any_cast, st))
  ∧ (holds_string m "CheckPoint" = false →
     ∀ st, load_CheckPoint m st = (Throw bad_any_cast, st)).
Proof.
  unfold load_LogDirectoryPath, load_MaxLogFileSize, load_RemoveLogsOlderThan,
    load_LogLevel, load_LogMode, load_CheckPoint.
  repeat split; intros H st;
    apply contains_not_string in H as [-> ->]; reflexivity.
Qed.

Lemma bool_blocks_need_booleans (m : EMap.t) :
  (holds_bool m "EnableFileWatcher" = false →
   ∀ st, load_EnableFileWatcher m st = (Throw bad_any_cast, st))
  ∧ (holds_bool m "EnableAutoRemove" = false →
     ∀ st, load_EnableAutoRemove m st = (Throw bad_any_cast, st)).
Proof.
  unfold load_EnableFileWatcher, load_EnableAutoRemove.
  split; intros H st; apply contains_not_bool in H as [-> ->]; reflexivity.
Qed.

Lemma in_order_raises (blocks : list (M unit)) :
  Exists (fun c => ∀ st, ∃ e st', c st = (Throw e, st')) blocks →
  ∀ st, ∃ e st', in_order blocks st = (Throw e, st').
Proof.
  induction 1 as [c blocks Hc | c blocks _ IH]; intros st; simpl; unfold bind.
  - destruct (Hc st) as (e & st' & ->). by exists e, st'.
  - destruct (c st) as [[[] | e] st1]; [apply IH | by exists e, st1].
Qed.

Lemma incomplete_raises (m : EMap.t) :
  complete m = false → ∀ st, ∃ e st', load_try m st = (Throw e, st').
Proof.
  intros H. apply in_order_raises.
  destruct (string_blocks_need_texts m) as (H1 & H2 & H3 & H4 & H5 & H6).
  destruct (bool_blocks_need_booleans m) as (H7 & H8).
  unfold complete, string_keys, bool_keys in H. simpl in H.
  rewrite !andb_true_r in H.
  repeat (apply andb_false_iff in H as [H | H]).
  - apply Exists_cons_hd. intros st. by exists bad_any_cast, st; apply H1.
  - do 1 apply Exists_cons_tl. apply Exists_cons_hd.
    intros st. by exists bad_any_cast, st; apply H2.
  - do 2 apply Exists_cons_tl. apply Exists_cons_hd.
    intros st. by exists bad_any_cast, st; apply H3.
  - do 3 apply Exists_cons_tl. apply Exists_cons_hd.
    intros st. by exists bad_any_cast, st; apply H4.
  - do 4 apply Exists_cons_tl. apply Exists_cons_hd.
    intros st. by exists bad_any_cast, st; apply H5.
  - do 5 apply Exists_cons_tl. apply Exists_cons_hd.
    intros st. by exists bad_any_cast, st; apply H6.
  - do 6 apply Exists_cons_tl. apply Exists_cons_hd.
    intros st. by exists bad_any_cast, st; apply H7.
  - do 7 apply Exists_cons_tl. apply Exists_cons_hd.
    intros st. by exists bad_any_cast, st; apply H8.
Qed.

Lemma non_empty_size (m : EMap.t) : m ≠ ∅ → (0 <? size m)%nat = true.
Proof.
  intros H. apply Nat.ltb_lt.
  destruct (decide (size m = 0%nat)) as [E | E]; [| lia].
  by apply map_size_empty_iff in E.
Qed.
End KeyFacts.

(** X15.  A configuration file is never loaded silently when it lacks one
    of the eight keys of [load], or gives one of them a value of another
    type than [load] casts it to (a number or a boolean for a text key, a
    text for a boolean key): [load] then either returns with the line of
    the parsing error as the last one it writes, or is left by another
    exception.  When the key at fault is [LogDirectoryPath], the first
    one, no key of the file is applied: [load] returns the defaults. *)
Theorem load_needs_every_key (cwd : string) (tokens : list (string * string))
    (m : EMap.t) :
  EMap.read tokens = Ok (true, m) → m ≠ ∅ → complete m = false →
  ((∃ cfg lines,
      LoggerConfigurator.load cwd tokens
      = (Ok cfg, lines ++ [LoggerConfigurator.parsing_report]))
   ∨ (∃ e lines,
        LoggerConfigurator.load cwd tokens = (Throw e, lines) ∧ e ≠ bad_any_cast))
  ∧ (holds_string m "LogDirectoryPath" = false →
     LoggerConfigurator.load cwd tokens
     = (Ok (LoggerConfigurator.default_configuration cwd),
        [LoggerConfigurator.parsing_report])).
Proof.
  intros Hr Hne Hc. unfold LoggerConfigurator.load.
  rewrite Hr, (non_empty_size m Hne). simpl. split.
  - destruct (incomplete_raises m Hc
                (LoggerConfigurator.mkState
                   (LoggerConfigurator.default_configuration cwd) []))
      as (e & st' & ->).
    destruct e; simpl;
      first [ left; by eexists _, _ | right; eexists _, _; by split ].
  - intros Hd.
    destruct (string_blocks_need_texts m) as (H1 & _).
    unfold LoggerConfigurator.load_try. simpl.
    unfold LoggerConfigurator.bind at 1. by rewrite (H1 Hd).
Qed.

Lemma load_needs_every_key_witness :
  ((∃ cfg lines,
      LoggerConfigurator.load "/home/user"
        [("MaxLogFileSize", "100MiB"); ("LogLevel", "Info")]%string
      = (Ok cfg, lines ++ [LoggerConfigurator.parsing_report]))
   ∨ (∃ e lines,
        LoggerConfigurator.load "/home/user"
          [("MaxLogFileSize", "100MiB"); ("LogLevel", "Info")]%string
        = (Throw e, lines) ∧ e ≠ bad_any_cast))
  ∧ (holds_string
       (<["LogLevel"%string := AnyString "Info"]>
          (<["MaxLogFileSize"%string := AnyString "100MiB"]> (∅ : EMap.t)))
       "LogDirectoryPath" = false →
     LoggerConfigurator.load "/home/user"
       [("MaxLogFileSize", "100MiB"); ("LogLevel", "Info")]%string
     = (Ok (LoggerConfigurator.default_configuration "/home/user"),
        [LoggerConfigurator.parsing_report])).
Proof.
  apply (load_needs_every_key "/home/user"
           [("MaxLogFileSize", "100MiB"); ("LogLevel", "Info")]%string
           (<["LogLevel"%string := AnyString "Info"]>
              (<["MaxLogFileSize"%string := AnyString "100MiB"]> (∅ : EMap.t)))).
  - reflexivity.
  - apply insert_non_empty.
  - reflexivity.
Defined.

Section CompleteFacts.
Import LoggerConfigurator.

Lemma parseFileSize_writes_on_failure_only (s : string) (f : FileSize.t)
    (written : list string) :
  FileSize.parseFileSize s = (Some f, written) → written = [].
Proof.
  unfold FileSize.parseFileSize. destruct (span_digits s) as [digits rest].
  repeat case_match; by intros [= _ <-].
Qed.

Lemma parseRemoveLogsOlderThan_raises (v : string) (e : exn) :
  parseRemoveLogsOlderThan v = Throw e →
  e = invalid_argument ∨ e = out_of_range.
Proof.
  unfold parseRemoveLogsOlderThan.
  destruct (match_duration v) as [[number unit] |]; [| done].
  unfold stoull. destruct (span_digits number) as [d r].
  destruct d; simpl; [intros [= <-]; by left |].
  case_match; simpl; [done | intros [= <-]; by right].
Qed.

Lemma in_order_raise_origin (blocks : list (M unit)) (e : exn) :
  may_raise (in_order blocks) e → Exists (fun c => may_raise c e) blocks.
Proof.
  induction blocks as [| c blocks IH]; intros (st & st' & H); simpl in H.
  - done.
  - unfold bind in H. destruct (c st) as [[[] | e0] st1] eqn:E.
    + apply Exists_cons_tl, IH. by exists st1, st'.
    + injection H as -> ->. apply Exists_cons_hd. by exists st, st'.
Qed.

Lemma text_blocks_raise_casts (m : EMap.t) (e : exn) :
  (may_raise (load_LogDirectoryPath m) e → e = bad_any_cast)
  ∧ (may_raise (load_LogLevel m) e → e = bad_any_cast)
  ∧ (may_raise (load_LogMode m) e → e = bad_any_cast)
  ∧ (may_raise (load_CheckPoint m) e → e = bad_any_cast)
  ∧ (may_raise (load_EnableFileWatcher m) e → e = bad_any_cast)
  ∧ (may_raise (load_EnableAutoRemove m) e → e = bad_any_cast).
Proof.
  unfold load_LogDirectoryPath, load_LogLevel, load_LogMode, load_CheckPoint,
    load_EnableFileWatcher, load_EnableAutoRemove.
  repeat split; intros (st & st' & H); revert H;
    match goal with |- context [contains m ?k] =>
      rewrite (contains_lookup m k); destruct (m !! k) as [[] |] end;
    simpl; unfold bind, lift, assign, report; simpl;
    repeat case_match; congruence.
Qed.

Lemma size_block_raises_casts (m : EMap.t) (e : exn) :
  may_raise (load_MaxLogFileSize m) e → e = bad_any_cast.
Proof.
  unfold load_MaxLogFileSize. intros (st & st' & H). revert H.
  rewrite (contains_lookup m "MaxLogFileSize").
  destruct (m !! "MaxLogFileSize"%string) as [[s | n | b |] |]; simpl;
    try (unfold bind, lift; simpl; congruence).
  rewrite bind_lift_Ok. destruct (parseMaxLogFileSize s) as [r written].
  unfold bind. destruct (reports_end_normally written st) as [st1 ->].
  destruct r; unfold assign, report; congruence.
Qed.

Lemma age_block_raises (m : EMap.t) (e : exn) :
  may_raise (load_RemoveLogsOlderThan m) e →
  e = bad_any_cast
  ∨ ∃ v, m !! "RemoveLogsOlderThan"%string = Some (AnyString v)
         ∧ parseRemoveLogsOlderThan v = Throw e.
Proof.
  unfold load_RemoveLogsOlderThan. intros (st & st' & H). revert H.
  rewrite (contains_lookup m "RemoveLogsOlderThan").
  destruct (m !! "RemoveLogsOlderThan"%string) as [[s | n | b |] |]; simpl;
    try (unfold bind, lift; simpl; intros [= <- _]; by left).
  rewrite bind_lift_Ok. unfold bind, lift.
  destruct (parseRemoveLogsOlderThan s) as [value | e0] eqn:E.
  - case_match; unfold assign, report; congruence.
  - intros [= <- _]. right. by exists s.
Qed.
End CompleteFacts.

(** X16.  The exceptions that leave [load].  A call of [load] is left by
    an exception only in two ways: by [std::out_of_range] of [EMap::read]
    (a value made of digits that does not fit an [int]), or by the
    exception of [parseRemoveLogsOlderThan] on the text of
    [RemoveLogsOlderThan], which is [std::invalid_argument] or
    [std::out_of_range].  No [std::bad_any_cast] leaves it. *)
Theorem load_exceptions (cwd : string) (tokens : list (string * string))
    (e : exn) :
  fst (LoggerConfigurator.load cwd tokens) = Throw e →
  (e = invalid_argument ∨ e = out_of_range)
  ∧ ((EMap.read tokens = Throw e ∧ e = out_of_range
      ∧ existsb too_large (map snd tokens) = true)
     ∨ (∃ (m : EMap.t) v,
          EMap.read tokens = Ok (true, m)
          ∧ m !! "RemoveLogsOlderThan"%string = Some (AnyString v)
          ∧ LoggerConfigurator.parseRemoveLogsOlderThan v = Throw e)).
Proof.
  intros H.
  assert ((EMap.read tokens = Throw e ∧ e = out_of_range
           ∧ existsb too_large (map snd tokens) = true)
          ∨ (∃ (m : EMap.t) v,
               EMap.read tokens = Ok (true, m)
               ∧ m !! "RemoveLogsOlderThan"%string = Some (AnyString v)
               ∧ LoggerConfigurator.parseRemoveLogsOlderThan v = Throw e)) as Hor.
  { unfold LoggerConfigurator.load in H.
    pose proof (read_loop_spec tokens ∅) as Hread. unfold EMap.read in *.
    destruct (existsb too_large (map snd tokens)).
    - rewrite Hread in *. simpl in H. injection H as <-. by left.
    - destruct Hread as (m & Hm & _). rewrite Hm in *. simpl in H.
      right. exists m.
      destruct (0 <? size m)%nat; [| done].
      destruct (LoggerConfigurator.load_try m _) as [[[] | e0] st'] eqn:E;
        [done |].
      assert (e0 = e ∧ e0 ≠ bad_any_cast) as [-> Hcast]
        by (destruct e0; simpl in H; split; congruence).
      assert (may_raise (LoggerConfigurator.load_try m) e) as Hraise
        by (by eexists _, _).
      apply in_order_raise_origin in Hraise.
      destruct (text_blocks_raise_casts m e) as (H1 & H4 & H5 & H6 & H7 & H8).
      pose proof (size_block_raises_casts m e) as H2.
      pose proof (age_block_raises m e) as H3.
      repeat (apply Exists_cons in Hraise as [Hraise | Hraise]);
        try (exfalso; by auto).
      + destruct (H3 Hraise) as [-> | (v & Hv & Hp)]; [done |]. by exists v.
      + by apply Exists_nil in Hraise. }
  split; [| done].
  destruct Hor as [(_ & -> & _) | (m & v & _ & _ & Hp)]; [by right |].
  by apply (parseRemoveLogsOlderThan_raises v).
Qed.

Lemma load_exceptions_witness :
  (invalid_argument = invalid_argument ∨ invalid_argument = out_of_range)
  ∧ ((EMap.read [("LogDirectoryPath", "/home/user/logs"); ("MaxLogFileSize", "1KB");
                 ("RemoveLogsOlderThan", "w")]%string = Throw invalid_argument
      ∧ invalid_argument = out_of_range
      ∧ existsb too_large
          (map snd [("LogDirectoryPath", "/home/user/logs"); ("MaxLogFileSize", "1KB");
                    ("RemoveLogsOlderThan", "w")]%string) = true)
     ∨ (∃ (m : EMap.t) v,
          EMap.read [("LogDirectoryPath", "/home/user/logs"); ("MaxLogFileSize", "1KB");
                     ("RemoveLogsOlderThan", "w")]%string = Ok (true, m)
          ∧ m !! "RemoveLogsOlderThan"%string = Some (AnyString v)
          ∧ LoggerConfigurator.parseRemoveLogsOlderThan v = Throw invalid_argument)).
Proof.
  apply (load_exceptions "/home/user"
           [("LogDirectoryPath", "/home/user/logs"); ("MaxLogFileSize", "1KB");
            ("RemoveLogsOlderThan", "w")]%string invalid_argument).
  by vm_compute.
Defined.

(** X17.  A file that gives the eight keys values that parse is loaded
    whole and in silence: the configuration [load] returns has the
    directory as written, the parsed size, age, level, mode and
    checkpoint and the two switches, and nothing is written to
    [std::cerr].  An age of zero does not count as parsed. *)
Theorem load_complete_file (cwd : string) (tokens : list (string * string))
    (m : EMap.t) (dir size age level mode point : string) (watch remove : bool)
    (f : FileSize.t) (n : Z) (l : Logger.LogLevel) (md : Logger.LogMode)
    (t : Date.Time) :
  EMap.read tokens = Ok (true, m) →
  m !! "LogDirectoryPath"%string = Some (AnyString dir) →
  m !! "MaxLogFileSize"%string = Some (AnyString size) →
  m !! "RemoveLogsOlderThan"%string = Some (AnyString age) →
  m !! "LogLevel"%string = Some (AnyString level) →
  m !! "LogMode"%string = Some (AnyString mode) →
  m !! "CheckPoint"%string = Some (AnyString point) →
  m !! "EnableFileWatcher"%string = Some (AnyBool watch) →
  m !! "EnableAutoRemove"%string = Some (AnyBool remove) →
  fst (FileSize.parseFileSize size) = Some f →
  LoggerConfigurator.parseRemoveLogsOlderThan age = Ok n → n ≠ 0 →
  LoggerConfigurator.parseLogLevel level = Some l →
  LoggerConfigurator.parseLogMode mode = Some md →
  LoggerConfigurator.parseCheckPoint point = Some t →
  LoggerConfigurator.load cwd tokens
  = (Ok (LoggerConfigurator.mkConfiguration dir f n l md (Some t) watch remove), []).
Proof.
  intros Hr Hdir Hsize Hage Hlevel Hmode Hpoint Hwatch Hremove Hf Hn Hn0 Hl Hmd Ht.
  unfold LoggerConfigurator.load. rewrite Hr. simpl.
  rewrite non_empty_size by (intros ->; by rewrite lookup_empty in Hdir).
  destruct (FileSize.parseFileSize size) as [r written] eqn:Ef. simpl in Hf. subst r.
  pose proof (parseFileSize_writes_on_failure_only _ _ _ Ef) as ->.
  unfold LoggerConfigurator.load_try, LoggerConfigurator.load_LogDirectoryPath,
    LoggerConfigurator.load_MaxLogFileSize, LoggerConfigurator.load_RemoveLogsOlderThan,
    LoggerConfigurator.load_LogLevel, LoggerConfigurator.load_LogMode,
    LoggerConfigurator.load_CheckPoint, LoggerConfigurator.load_EnableFileWatcher,
    LoggerConfigurator.load_EnableAutoRemove, LoggerConfigurator.parseMaxLogFileSize.
  rewrite !contains_lookup, Hdir, Hsize, Hage, Hlevel, Hmode, Hpoint, Hwatch, Hremove.
  simpl. rewrite !bind_lift_Ok, Ef, Hn, !bind_lift_Ok, Hl, Hmd, Ht.
  apply Z.eqb_neq in Hn0. rewrite Hn0. reflexivity.
Qed.

Lemma load_complete_file_witness :
  LoggerConfigurator.load "/home/user" example_configuration_file
  = (Ok (LoggerConfigurator.mkConfiguration "/home/user/logs"
           (FileSize.mk 100 FileSize.MiB) 172800000 Logger.Info Logger.File
           (Some (Date.mkTime 11 45 0)) true true), []).
Proof.
  apply (load_complete_file "/home/user" example_configuration_file
           (list_to_map
              [("LogDirectoryPath", AnyString "/home/user/logs");
               ("MaxLogFileSize", AnyString "100MiB");
               ("RemoveLogsOlderThan", AnyString "2d");
               ("LogLevel", AnyString "Info"); ("LogMode", AnyString "File");
               ("CheckPoint", AnyString "11:45");
               ("EnableFileWatcher", AnyBool true);
               ("EnableAutoRemove", AnyBool true)]%string)
           "/home/user/logs" "100MiB" "2d" "Info" "File" "11:45" true true);
    try reflexivity.
  done.
Defined.

(** ** Rotated files and the retention pattern *)

Section PatternFacts.
Import Regex.

Lemma match_class_length k n s r :
  match_class k n s = Some r → String.length s = (n + String.length r)%nat.
Proof.
  revert s. induction n as [| n IH]; intros s; simpl.
  - by intros [= ->].
  - destruct s as [| c s]; [done |].
    destruct (class_matches k c); [| done].
    intros H. simpl. by rewrite (IH _ H).
Qed.

Lemma match_pieces_length ps s :
  match_pieces ps s = true → String.length s = sum_list (map reps ps).
Proof.
  revert s. induction ps as [| p ps IH]; intros s; simpl.
  - by destruct s.
  - destruct (match_class (cls p) (reps p) s) as [r |] eqn:E; [| done].
    intros H. rewrite (match_class_length _ _ _ _ E), (IH _ H). done.
Qed.

Lemma to_string_one_digit (N : Z) :
  0 ≤ N ≤ 9 → ∃ c, to_string N = String c "" ∧ isdigit c = true.
Proof.
  intros H.
  assert (N = 0 ∨ N = 1 ∨ N = 2 ∨ N = 3 ∨ N = 4 ∨ N = 5 ∨ N = 6 ∨ N = 7
          ∨ N = 8 ∨ N = 9) as HN by lia.
  repeat destruct HN as [-> | HN]; try subst N; by eexists.
Qed.

Lemma to_string_two_digits (N : Z) :
  10 ≤ N → (2 ≤ String.length (to_string N))%nat.
Proof.
  intros H. unfold to_string, pretty, pretty_N.
  destruct (decide (Z.to_N N = 0%N)) as [E | _]; [lia |].
  rewrite pretty_N_go_step by lia. rewrite pretty_N_go_append.
  rewrite (pretty_N_go_step (Z.to_N N `div` 10)).
  - rewrite pretty_N_go_append, !length_append. simpl. lia.
  - apply N.div_str_pos. lia.
Qed.

Lemma LOG_FILE_FORMAT_pieces :
  regex_parse LOG_FILE_FORMAT
  = Some [mkPiece CDigit 4; mkPiece (CSet ["-"%char]) 1; mkPiece CDigit 2;
          mkPiece (CSet ["-"%char]) 1; mkPiece CDigit 2; mkPiece CAny 1;
          mkPiece (CLit "l") 1; mkPiece (CLit "o") 1; mkPiece (CLit "g") 1;
          mkPiece CAny 1; mkPiece CDigit 1].
Proof. by vm_compute. Qed.

Lemma rotated_name_matches (today : string) (N : Z) :
  is_date today = true → 0 ≤ N →
  regex_match (rotated_name today N) LOG_FILE_FORMAT = Some (N <=? 9).
Proof.
  intros Hd HN. unfold regex_match. rewrite LOG_FILE_FORMAT_pieces. f_equal.
  destruct (Z.leb_spec N 9) as [Hle | Hgt].
  - destruct (to_string_one_digit N) as (c & Hc & Hdig); [lia |].
    unfold rotated_name. rewrite Hc.
    destruct today as [| y1 [| y2 [| y3 [| y4 [| s1 [| m1 [| m2 [| s2 [| d1
      [| d2 [| ? ?]]]]]]]]]]]; try done.
    simpl in Hd.
    do 9 (let H := fresh "Hd" in apply andb_prop in Hd as [Hd H]).
    repeat match goal with E : Ascii.eqb _ _ = true |- _ =>
      apply Ascii.eqb_eq in E; subst end.
    repeat (rewrite append_cons || rewrite append_nil_l).
    revert Hdig.
    repeat (cbn -[isdigit is_line_terminator];
            first [ match goal with E : isdigit _ = true |- _ => rewrite E; clear E end
                  | progress change (is_line_terminator ".") with false ]).
    cbn -[isdigit]. by intros ->.
  - destruct (match_pieces _ _) eqn:E; [| done].
    apply match_pieces_length in E. exfalso.
    unfold rotated_name in E. rewrite !length_append in E.
    pose proof (to_string_two_digits N ltac:(lia)) as H2.
    destruct today as [| y1 [| y2 [| y3 [| y4 [| s1 [| m1 [| m2 [| s2 [| d1
      [| d2 [| ? ?]]]]]]]]]]]; try done.
    simpl in E. lia.
Qed.
End PatternFacts.

(** A file whose name the pattern of the watcher does not accept is
    still in the tree after the sweep. *)
Lemma sweep_keeps_other_names w now (fs : Fs.tree) e :
  DirectoryWatcher.filePattern_ w = ""%string
  ∨ is_Some (Regex.regex_parse (DirectoryWatcher.filePattern_ w)) →
  e ∈ fs →
  name_accepted (DirectoryWatcher.filePattern_ w) (Fs.filename (Fs.path e)) = false →
  ∃ fs' err, DirectoryWatcher.removeOldLogFiles w now fs = Some (fs', err) ∧ e ∈ fs'.
Proof.
  intros Hp Hin Hname.
  destruct (filesOlderThan_total now fs
    (DirectoryWatcher.milliseconds (DirectoryWatcher.fileExpiration_ w))
    (DirectoryWatcher.filePattern_ w) Hp) as [sel Hsel].
  unfold DirectoryWatcher.removeOldLogFiles. rewrite Hsel.
  destruct (DirectoryWatcher.remove_loop sel fs) as [fs' thrown] eqn:Hloop.
  eexists _, _. split; [done |].
  apply remove_loop_spec in Hloop as (before & rest & -> & -> & _).
  apply elem_of_without. split; [done |]. intros Hb.
  assert (Fs.path e ∈ before ++ rest) as Hs by (apply elem_of_app; by left).
  apply (elem_of_selected _ _ _ _ _ _ Hsel) in Hs as (e0 & _ & Hp0 & Hsel0).
  unfold passes_the_loop in Hsel0. rewrite Hp0, Hname in Hsel0. done.
Qed.

(** X18.  The pattern the retention sweep is started with accepts the
    name of the N-th rotated file of a day exactly when N has one digit.
    From the tenth rotation of a day on, the rotated file is outside the
    pattern and no sweep of that watcher removes it, however old it is. *)
Theorem rotations_beyond_nine_are_never_swept (today : string) (N : Z) :
  is_date today = true → 0 ≤ N →
  Regex.regex_match (rotated_name today N) LOG_FILE_FORMAT = Some (N <=? 9)
  ∧ (10 ≤ N →
     ∀ cfg w now (fs : Fs.tree) e,
       LogManager.enableDirectoryWatcher cfg = Some w →
       e ∈ fs → Fs.filename (Fs.path e) = rotated_name today N →
       ∃ fs' err,
         DirectoryWatcher.removeOldLogFiles w now fs = Some (fs', err) ∧ e ∈ fs').
Proof.
  intros Hd HN. pose proof (rotated_name_matches today N Hd HN) as Hm.
  split; [done |].
  intros Hten cfg w now fs e Hw Hin Hname.
  assert (DirectoryWatcher.filePattern_ w = LOG_FILE_FORMAT) as Hpat.
  { unfold LogManager.enableDirectoryWatcher in Hw.
    case_match; [| done]. by injection Hw as <-. }
  apply sweep_keeps_other_names; [| done |].
  - right. rewrite Hpat, LOG_FILE_FORMAT_pieces. by eexists.
  - rewrite Hpat, Hname. unfold name_accepted. rewrite Hm.
    change LOG_FILE_FORMAT with "\d{4}[-]\d{2}[-]\d{2}.log.\d"%string. cbv iota.
    apply Z.leb_gt. lia.
Qed.

Lemma rotations_beyond_nine_are_never_swept_witness :
  Regex.regex_match (rotated_name "2024-01-01" 10) LOG_FILE_FORMAT = Some (10 <=? 9)
  ∧ (10 ≤ 10 →
     ∀ cfg w now (fs : Fs.tree) e,
       LogManager.enableDirectoryWatcher cfg = Some w →
       e ∈ fs → Fs.filename (Fs.path e) = rotated_name "2024-01-01" 10 →
       ∃ fs' err,
         DirectoryWatcher.removeOldLogFiles w now fs = Some (fs', err) ∧ e ∈ fs').
Proof.
  apply (rotations_beyond_nine_are_never_swept "2024-01-01" 10); [reflexivity | lia].
Defined.

(** ** The queue, the timer and the watched file *)

Section ClearFacts.
Context {T : Type}.

Lemma clear_loop_empties (fuel : nat) (q : ConcurrentQueue.t T) :
  (List.length q ≤ fuel)%nat → ConcurrentQueue.clear_loop fuel q = [].
Proof.
  revert q. induction fuel as [| n IH]; intros [| x q] H; simpl in *;
    [done | lia | done |].
  apply IH. lia.
Qed.
End ClearFacts.

(** X19.  [clear] leaves the queue empty whatever it held.  [length] and
    [empty] agree with the operations: an [enqueue] adds one to the
    length, a [dequeue] that returns takes one away, and the queue is
    [empty] exactly when its length is zero, which is when a [dequeue]
    waits. *)
Theorem queue_clear_and_length {T : Type} (q : ConcurrentQueue.t T) (x : T) :
  ConcurrentQueue.clear q = []
  ∧ ConcurrentQueue.length (ConcurrentQueue.clear q) = 0
  ∧ ConcurrentQueue.length (ConcurrentQueue.enqueue x q) = ConcurrentQueue.length q + 1
  ∧ (∀ y q', ConcurrentQueue.dequeue q = Some (y, q') →
             ConcurrentQueue.length q' = ConcurrentQueue.length q - 1)
  ∧ (ConcurrentQueue.empty q = true ↔ ConcurrentQueue.length q = 0)
  ∧ (ConcurrentQueue.empty q = true ↔ ConcurrentQueue.dequeue q = None).
Proof.
  assert (ConcurrentQueue.clear q = []) as Hc
    by (unfold ConcurrentQueue.clear; by apply clear_loop_empties).
  split; [done |]. split; [by rewrite Hc |]. split; [| split; [| split]].
  - unfold ConcurrentQueue.length, ConcurrentQueue.enqueue.
    rewrite length_app. simpl. lia.
  - intros y q'. destruct q as [| z q]; [done |]. intros [= _ <-].
    unfold ConcurrentQueue.length. simpl. lia.
  - destruct q; unfold ConcurrentQueue.length; simpl; split; (done || lia).
  - by destruct q.
Qed.

(** X20.  The sign of [elapsedTime].  For a timer that runs no interval,
    [start] at one reading of the clock and [stop] at a later one give an
    elapsed time that is the negated length of the measured span, the
    start point minus the stop point: it is never positive.  While an
    interval runs, [start] does not take the start point. *)
Theorem elapsedTime_is_start_minus_stop (tm : Timer.t) (t0 t1 : Z) :
  t0 ≤ t1 →
  (Timer.isRunning tm = false →
   Timer.elapsedTime (Timer.stop t1 (Timer.start t0 tm)) = - (t1 - t0)
   ∧ Timer.elapsedTime (Timer.stop t1 (Timer.start t0 tm)) ≤ 0)
  ∧ (Timer.isRunning tm = true →
     Timer.elapsedTime (Timer.stop t1 (Timer.start t0 tm)) = Timer.startPoint_ tm - t1)
  ∧ Timer.isRunning (Timer.stop t1 (Timer.start t0 tm)) = false.
Proof.
  intros H. unfold Timer.isRunning, Timer.elapsedTime, Timer.stop, Timer.start.
  split; [| split].
  - intros ->. simpl. lia.
  - by intros ->.
  - done.
Qed.

Lemma elapsedTime_is_start_minus_stop_witness :
  (Timer.isRunning (Timer.mk 0 0 false) = false →
   Timer.elapsedTime (Timer.stop 1500 (Timer.start 1000 (Timer.mk 0 0 false)))
   = - (1500 - 1000)
   ∧ Timer.elapsedTime (Timer.stop 1500 (Timer.start 1000 (Timer.mk 0 0 false))) ≤ 0)
  ∧ (Timer.isRunning (Timer.mk 0 0 false) = true →
     Timer.elapsedTime (Timer.stop 1500 (Timer.start 1000 (Timer.mk 0 0 false)))
     = Timer.startPoint_ (Timer.mk 0 0 false) - 1500)
  ∧ Timer.isRunning (Timer.stop 1500 (Timer.start 1000 (Timer.mk 0 0 false))) = false.
Proof.
  apply (elapsedTime_is_start_minus_stop (Timer.mk 0 0 false) 1000 1500). lia.
Defined.

Lemma bsize_below_unreadable (f : FileSize.t) :
  0 ≤ FileSize.size f ≤ INT_MAX → FileSize.bsize f < ULLONG_MAX.
Proof.
  intros H. unfold FileSize.bsize, wrap64, uintmax_modulus.
  assert (1 ≤ FileSize.unit_value (FileSize.unit f) ≤ 1073741824) as Hu
    by (destruct (FileSize.unit f); simpl; lia).
  assert (FileSize.size f * FileSize.unit_value (FileSize.unit f)
          ≤ INT_MAX * 1073741824) by (apply Z.mul_le_mono_nonneg; lia).
  rewrite Z.mod_small; unfold INT_MAX, ULLONG_MAX in *; [lia |].
  split; [apply Z.mul_nonneg_nonneg; lia | lia].
Qed.

(** X21.  A watched file whose size cannot be read counts as larger than
    every limit: [file_size] then returns the largest [uintmax_t], the
    error code is not looked at, and for every limit a configuration can
    hold (a size up to [INT_MAX] in any unit) the tick calls the
    callback; it calls it exactly once when no checkpoint is reached.
    This is the case of a file that is not in the log directory. *)
Theorem unreadable_file_calls_callback {World : Type} (callback_ : World → World)
    (file_size : string → World → Z) (s : FileWatcher.FileWatcherSettings)
    (currTime : Date.Time) (w : World) :
  0 ≤ FileSize.size (FileWatcher.maxFileSize s) ≤ INT_MAX →
  file_size (FileWatcher.filePath s) w = ULLONG_MAX →
  file_size (FileWatcher.filePath s) (callback_ w) = ULLONG_MAX →
  (1 ≤ snd (FileWatcher.isTimeToCallback callback_ file_size s currTime w))%nat
  ∧ (FileWatcher.checkpoint_reached s currTime = false →
     FileWatcher.isTimeToCallback callback_ file_size s currTime w
     = (callback_ w, 1%nat))
  ∧ (FileWatcher.checkpoint_reached s currTime = true →
     FileWatcher.isTimeToCallback callback_ file_size s currTime w
     = (callback_ (callback_ w), 2%nat)).
Proof.
  intros Hsize Hfile Hafter. apply bsize_below_unreadable, Z.ltb_lt in Hsize.
  unfold FileWatcher.isTimeToCallback.
  destruct (FileWatcher.checkpoint_reached s currTime).
  - rewrite Hafter, Hsize. simpl. split; [lia |]. by split.
  - rewrite Hfile, Hsize. simpl. split; [lia |]. by split.
Qed.

Lemma unreadable_file_calls_callback_witness :
  (1 ≤ snd (FileWatcher.isTimeToCallback (fun w : option Dir.listing => w)
              Dir.file_size
              (FileWatcher.mkSettings "/logs/2024-01-01.log"
                 (FileSize.mk 50 FileSize.MB) None)
              (Date.mkTime 10 30 0) None))%nat
  ∧ (FileWatcher.checkpoint_reached
       (FileWatcher.mkSettings "/logs/2024-01-01.log" (FileSize.mk 50 FileSize.MB) None)
       (Date.mkTime 10 30 0) = false →
     FileWatcher.isTimeToCallback (fun w : option Dir.listing => w) Dir.file_size
       (FileWatcher.mkSettings "/logs/2024-01-01.log" (FileSize.mk 50 FileSize.MB) None)
       (Date.mkTime 10 30 0) None
     = (None, 1%nat))
  ∧ (FileWatcher.checkpoint_reached
       (FileWatcher.mkSettings "/logs/2024-01-01.log" (FileSize.mk 50 FileSize.MB) None)
       (Date.mkTime 10 30 0) = true →
     FileWatcher.isTimeToCallback (fun w : option Dir.listing => w) Dir.file_size
       (FileWatcher.mkSettings "/logs/2024-01-01.log" (FileSize.mk 50 FileSize.MB) None)
       (Date.mkTime 10 30 0) None
     = (None, 2%nat)).
Proof.
  apply (unreadable_file_calls_callback (fun w : option Dir.listing => w)
           Dir.file_size
           (FileWatcher.mkSettings "/logs/2024-01-01.log" (FileSize.mk 50 FileSize.MB) None)
           (Date.mkTime 10 30 0) None).
  - simpl. unfold INT_MAX. lia.
  - reflexivity.
  - reflexivity.
Defined.

Section SubstringFacts.

Lemma prefix_occurs (a b : string) :
  String.prefix a b = true ↔ ∃ after, b = a +:+ after.
Proof.
  revert b. induction a as [| x a IH]; intros b.
  - split; [intros _; by exists b | intros _; by destruct b].
  - destruct b as [| y b]; simpl.
    { split; [done | intros [after H]; by rewrite append_cons in H]. }
    destruct (ascii_dec x y) as [-> | Hne].
    + rewrite IH. split; intros [after H]; exists after.
      * by rewrite append_cons, H.
      * rewrite append_cons in H. by injection H.
    + split; [done |]. intros [after H]. rewrite append_cons in H. congruence.
Qed.

Lemma contains_substring_occurs (needle haystack : string) :
  contains_substring needle haystack = true ↔ occurs_in needle haystack.
Proof.
  unfold occurs_in. induction haystack as [| c h IH]; cbn [contains_substring].
  - rewrite orb_false_r, prefix_occurs. split.
    + intros [after H]. by exists ""%string, after.
    + intros ([| ? ?] & after & H); [by exists after |].
      rewrite append_cons in H. done.
  - rewrite orb_true_iff, prefix_occurs, IH. split.
    + intros [[after H] | (before & after & H)].
      * by exists ""%string, after.
      * exists (String c before), after. by rewrite append_cons, H.
    + intros ([| x before] & after & H).
      * left. by exists after.
      * right. rewrite append_cons in H. injection H as -> ->.
        by exists before, after.
Qed.
End SubstringFacts.

(** X22.  [anyFileExists] counts the names of the directory in which the
    text sought occurs somewhere, not the files of that name: the count
    is zero exactly when the text occurs in no name of the directory, it
    is never more than the number of files, and a file of that very name
    makes it at least one. *)
Theorem anyFileExists_counts_occurrences (d : Dir.listing) (_fileSought : string) :
  (Logger.anyFileExists d _fileSought = 0
   ↔ ∀ name, is_Some (d !! name) → ¬ occurs_in _fileSought name)
  ∧ 0 ≤ Logger.anyFileExists d _fileSought ≤ Z.of_nat (size d)
  ∧ (is_Some (d !! _fileSought) → 1 ≤ Logger.anyFileExists d _fileSought).
Proof.
  unfold Logger.anyFileExists.
  set (P := fun kv : string * string => contains_substring _fileSought kv.1 = true).
  assert (size (filter P d) = 0%nat
          ↔ ∀ name, is_Some (d !! name) → ¬ occurs_in _fileSought name) as Hzero.
  { rewrite map_size_empty_iff, map_empty_filter. split.
    - intros H name [content Hn] Ho. apply (H name content Hn).
      unfold P. simpl. by apply contains_substring_occurs.
    - intros H name content Hn HP. apply (H name); [by eexists |].
      by apply contains_substring_occurs. }
  split; [| split].
  - rewrite <- Hzero. lia.
  - pose proof (map_filter_subseteq P d) as Hsub.
    apply map_subseteq_size in Hsub. lia.
  - intros Hd. destruct (decide (size (filter P d) = 0%nat)) as [E | E]; [| lia].
    exfalso. apply (proj1 Hzero E _fileSought Hd).
    exists ""%string, ""%string. by rewrite append_nil_l, append_empty_r.
Qed.
